(** * Common::FS -- a shallow embedding of src/common/file_util.cpp

  The development follows the source file top-down: first the pieces of the
  C++ standard library the code leans on ([std::string], [std::getline],
  [std::unique]), then the pure path helpers, the 8.3 short-name encoder,
  the [IOFile] wrapper, and finally the process-wide table behind
  [GetUserPath].  Definitions come first, theorems afterwards. *)

From Stdlib Require Import ZArith Ascii String Lia.
From stdpp Require Import gmap list strings.
From Equations Require Import Equations.

Local Open Scope Z_scope.

(** A [std::string] / [std::string_view] is a list of [char]s. *)
Abbreviation str := (list ascii).

(** String literals of the source, e.g. [lit ".local"]. *)
Definition lit (s : string) : str := list_ascii_of_string s.

(* ================================================================== *)
(** ** The standard-library operations used by the source *)
(* ================================================================== *)

Module Std.

(** [std::string::npos], i.e. [static_cast<size_t>(-1)] on a 64-bit
    target, and the wrap-around of [size_t] arithmetic. *)
Definition npos : Z := 2 ^ 64 - 1.
Definition wrap (z : Z) : Z := z mod 2 ^ 64.

Definition size (s : str) : Z := Z.of_nat (length s).

Definition empty (s : str) : bool :=
  match s with [] => true | _ => false end.

(** [s.find(c)]: index of the first occurrence, [npos] if there is none. *)
Fixpoint find_from (c : ascii) (s : str) (i : Z) : Z :=
  match s with
  | [] => npos
  | x :: t => if Ascii.eqb x c then i else find_from c t (i + 1)
  end.

Definition find (c : ascii) (s : str) : Z := find_from c s 0.

(** [s.rfind(c, pos)]: index of the last occurrence that starts at or
    before [pos], [npos] if there is none.  The scan keeps the latest
    admissible hit seen so far. *)
Fixpoint rfind_from (c : ascii) (pos : Z) (s : str) (i found : Z) : Z :=
  match s with
  | [] => found
  | x :: t =>
      rfind_from c pos t (i + 1)
        (if (i <=? pos) && Ascii.eqb x c then i else found)
  end.

Definition rfind (c : ascii) (s : str) (pos : Z) : Z :=
  rfind_from c pos s 0 npos.

(** [s.substr(pos, n)]: throws [std::out_of_range] ([None]) when
    [pos > size()], otherwise the [min(n, size() - pos)] characters
    starting at [pos]. *)
Definition substr (pos n : Z) (s : str) : option str :=
  if size s <? pos then None
  else Some (take (Z.to_nat (Z.min n (size s - pos))) (drop (Z.to_nat pos) s)).

(** [std::replace(first, last, old_value, new_value)]. *)
Definition replace (old new : ascii) (s : str) : str :=
  map (fun x => if Ascii.eqb x old then new else x) s.

(** [std::unique(first, last, p)] followed by [erase] of the tail: an
    element is dropped when [p] relates the last element kept to it. *)
Fixpoint unique_after {A} (p : A -> A -> bool) (kept : A) (l : list A) : list A :=
  match l with
  | [] => []
  | y :: t => if p kept y then unique_after p kept t
              else y :: unique_after p y t
  end.

Definition unique {A} (p : A -> A -> bool) (l : list A) : list A :=
  match l with
  | [] => []
  | x :: t => x :: unique_after p x t
  end.

(** [std::getline(stream, item, delim)] on the unread part of a
    [std::stringstream].  With nothing left to read no character is
    extracted, [failbit] is set and the stream tests false ([None]).
    Otherwise characters are taken up to the first [delim], which is
    extracted and discarded, or up to the end of the buffer. *)
Fixpoint getline_scan (delim : ascii) (s : str) : str * str :=
  match s with
  | [] => ([], [])
  | x :: t =>
      if Ascii.eqb x delim then ([], t)
      else let '(item, rest) := getline_scan delim t in (x :: item, rest)
  end.

Definition getline (delim : ascii) (stream : str) : option (str * str) :=
  match stream with
  | [] => None
  | _ => Some (getline_scan delim stream)
  end.

(** [std::toupper] in the "C" locale. *)
Definition toupper (c : ascii) : ascii :=
  let n := nat_of_ascii c in
  if ((97 <=? n) && (n <=? 122))%nat then ascii_of_nat (n - 32) else c.

(** [s.find_last_of(chars)]: index of the last character of [s] that
    occurs in [chars], [npos] if there is none. *)
Fixpoint find_last_of_from (chars s : str) (i found : Z) : Z :=
  match s with
  | [] => found
  | x :: t =>
      find_last_of_from chars t (i + 1)
        (if existsb (Ascii.eqb x) chars then i else found)
  end.

Definition find_last_of (chars s : str) : Z :=
  find_last_of_from chars s 0 npos.

End Std.

(* ================================================================== *)
(** ** Path text helpers *)
(* ================================================================== *)

Module FS.
Import Std.

(** The test [c == '\\' || c == '/'] that the source spells out inline. *)
Definition is_slash (c : ascii) : bool :=
  Ascii.eqb c "\"%char || Ascii.eqb c "/"%char.

(** The two build variants selected by [#ifdef _WIN32]. *)
Inductive Platform := Windows | Posix.

Inductive DirectorySeparator := ForwardSlash | BackwardSlash | PlatformDefault.

(** Remember the equation when matching on a computed value. *)
Definition inspect {A} (a : A) : {b : A | a = b} := exist _ a eq_refl.

(** [SplitPathComponents]: the [while (std::getline(...))] loop. *)
Equations? getline_loop (stream : str) (out : list str) : list str
  by wf (length stream) lt :=
  getline_loop stream out with inspect (getline "/"%char stream) := {
    | exist _ None _ => out
    | exist _ (Some (item, rest)) _ => getline_loop rest (out ++ [item]) }.
Proof.
  destruct stream as [|x t]; [discriminate|].
  injection e as e. clear getline_loop.
  assert (H : forall s i r, getline_scan "/"%char s = (i, r) ->
                            (length r <= length s)%nat).
  { induction s as [|y s IH]; simpl; intros i r E.
    - injection E as <- <-. simpl. lia.
    - destruct (Ascii.eqb y "/"%char).
      + injection E as <- <-. lia.
      + destruct (getline_scan "/"%char s) as [i' r'] eqn:E'.
        injection E as <- <-. specialize (IH _ _ eq_refl). lia. }
  simpl in e. destruct (Ascii.eqb x "/"%char).
  - injection e as <- <-. simpl. lia.
  - destruct (getline_scan "/"%char t) as [i' r'] eqn:E'.
    injection e as <- <-. apply H in E'. simpl. lia.
Qed.

Definition SplitPathComponents (filename : str) : list str :=
  let copy := replace "\"%char "/"%char filename in
  getline_loop copy [].

Definition GetParentPath (path : str) : option str :=
  let name_bck_index := rfind "\"%char path npos in
  let name_fwd_index := rfind "/"%char path npos in
  let name_index :=
    if (name_bck_index =? npos) || (name_fwd_index =? npos)
    then Z.min name_bck_index name_fwd_index
    else Z.max name_bck_index name_fwd_index in
  substr 0 name_index path.

(** The [while (path[0] == '\\' || path[0] == '/')] loop of
    [GetPathWithoutTop]; [inl] is the early [return path] taken when the
    view runs empty, [inr] the view the loop exits with. *)
Fixpoint remove_prefix_loop (path : str) : str + str :=
  match path with
  | [] => inl []
  | c :: rest =>
      if is_slash c then
        (if empty rest then inl rest else remove_prefix_loop rest)
      else inr path
  end.

Definition GetPathWithoutTop (path : str) : option str :=
  if empty path then Some path
  else match remove_prefix_loop path with
       | inl r => Some r
       | inr path' =>
           let name_bck_index := find "\"%char path' in
           let name_fwd_index := find "/"%char path' in
           substr (wrap (Z.min name_bck_index name_fwd_index + 1)) npos path'
       end.

Definition RemoveTrailingSlash (path : str) : str :=
  match last path with
  | None => path
  | Some c => if is_slash c then removelast path else path
  end.

Definition SanitizePath (plat : Platform) (path_ : str)
    (directory_separator : DirectorySeparator) : str :=
  let type1 := match directory_separator with
               | BackwardSlash => "/"%char | _ => "\"%char end in
  let type2 := match directory_separator with
               | BackwardSlash => "\"%char | _ => "/"%char end in
  let '(type1, type2) :=
    match directory_separator, plat with
    | PlatformDefault, Windows => ("/"%char, "\"%char)
    | _, _ => (type1, type2)
    end in
  let path := replace type1 type2 path_ in
  let pred := fun c1 c2 => Ascii.eqb c1 type2 && Ascii.eqb c2 type2 in
  let path :=
    match plat, path with
    | Windows, c :: rest => c :: unique pred rest
    | _, _ => unique pred path
    end in
  RemoveTrailingSlash path.

Definition GetFilename (path : str) : option str :=
  let name_index := find_last_of ["\"%char; "/"%char] path in
  if name_index =? npos then Some []
  else substr (wrap (name_index + 1)) npos path.

Definition GetExtensionFromFilename (name : str) : option str :=
  let index := rfind "."%char name npos in
  if index =? npos then Some []
  else substr (wrap (index + 1)) npos name.

(* ================================================================== *)
(** ** The 8.3 short-name encoder *)
(* ================================================================== *)

(** The eleven characters of the [forbidden_characters] literal: dot,
    double quote, slash, backslash, both square brackets, colon, semicolon,
    equals sign, comma and space. *)
Definition forbidden_characters : str :=
  ["."; ascii_of_nat 34; "/"; "\"; "["; "]"; ":"; ";"; "="; ","; " "]%char.

(** The range-for over [filename.substr(0, point)]: [continue] on a
    forbidden character, [break] once eight slots are filled. *)
Fixpoint short_name_loop (letters : str) (j : Z) (short_name : str) : str :=
  match letters with
  | [] => short_name
  | letter :: rest =>
      if negb (find letter forbidden_characters =? npos) then
        short_name_loop rest j short_name
      else if j =? 8 then
        <[7%nat := "1"%char]> (<[6%nat := "~"%char]> short_name)
      else
        short_name_loop rest (j + 1)
          (<[Z.to_nat j := toupper letter]> short_name)
  end.

(** The range-for over [filename.substr(point + 1, 3)]. *)
Fixpoint extension_loop (letters : str) (j : Z) (extension : str) : str :=
  match letters with
  | [] => extension
  | letter :: rest =>
      extension_loop rest (j + 1) (<[Z.to_nat j := toupper letter]> extension)
  end.

(** [SplitFilename83] returns the two output arrays, [std::array<char, 9>]
    and [std::array<char, 4>], terminator included. *)
Definition SplitFilename83 (filename : str) : option (str * str) :=
  let short_name := lit "        " ++ [zero] in
  let extension := lit "   " ++ [zero] in
  let point := rfind "."%char filename npos in
  let point :=
    if point =? wrap (size filename - 1)
    then rfind "."%char filename point else point in
  base ← substr 0 point filename;
  let short_name := short_name_loop base 0 short_name in
  if negb (point =? npos) then
    ext ← substr (wrap (point + 1)) 3 filename;
    Some (short_name, extension_loop ext 0 extension)
  else Some (short_name, extension).

(* ================================================================== *)
(** ** IOFile *)
(* ================================================================== *)

(** The C stdio calls [IOFile] delegates to, over an abstract host state
    [World].  [fread] also yields the bytes stored into the caller's
    buffer. *)
Class Stdio (FILE World : Type) := {
  fclose : FILE -> World -> Z * World;
  ftello : FILE -> World -> Z;
  fseeko : FILE -> Z -> Z -> World -> Z * World;
  fread : FILE -> Z -> Z -> World -> Z * str * World;
  fwrite : str -> Z -> Z -> FILE -> World -> Z * World;
}.

Definition SEEK_SET : Z := 0.
Definition SEEK_END : Z := 2.

(** Conversions between [off_t] (signed) and [u64]. *)
Definition to_u64 (z : Z) : Z := z mod 2 ^ 64.
Definition to_s64 (z : Z) : Z := (z + 2 ^ 63) mod 2 ^ 64 - 2 ^ 63.

(** [std::numeric_limits<u64>::max()], also [size_t]'s on a 64-bit target. *)
Definition u64_max : Z := 2 ^ 64 - 1.

Section IOFile.
Context {FILE World : Type} {stdio : Stdio FILE World}.

(** [std::FILE* m_file = nullptr;] *)
Record IOFile := { m_file : option FILE }.

(** [IOFile::IOFile() = default;] *)
Definition IOFile_default : IOFile := {| m_file := None |}.

(** Modelled from the spec: [IsOpen] is defined in common/file_util.h,
    which is not part of the sources; a handle is open exactly when it
    holds a resource. *)
Definition IsOpen (f : IOFile) : bool :=
  match m_file f with Some _ => true | None => false end.

(** [u64 GetSize(FILE* f)]. *)
Definition GetSize_FILE (f : FILE) (w : World) : Z * World :=
  let pos := to_u64 (ftello f w) in
  let '(r, w) := fseeko f 0 SEEK_END w in
  if negb (r =? 0) then (0, w)
  else
    let size := to_u64 (ftello f w) in
    if negb (size =? pos) then
      let '(r, w) := fseeko f (to_s64 pos) SEEK_SET w in
      if negb (r =? 0) then (0, w) else (size, w)
    else (size, w).

Definition Close (f : IOFile) (w : World) : bool * IOFile * World :=
  match m_file f with
  | None => (false, f, w)
  | Some file =>
      let '(r, w) := fclose file w in
      if negb (0 =? r) then (false, f, w)
      else (true, {| m_file := None |}, w)
  end.

Definition GetSize (f : IOFile) (w : World) : Z * World :=
  match m_file f with
  | Some file => GetSize_FILE file w
  | None => (0, w)
  end.

Definition Tell (f : IOFile) (w : World) : Z :=
  match m_file f with
  | Some file => to_u64 (ftello file w)
  | None => u64_max
  end.

(** [ReadImpl(data, length, data_size)]: the count returned and the bytes
    left in [data]. *)
Definition ReadImpl (f : IOFile) (length data_size : Z) (w : World)
    : Z * str * World :=
  match m_file f with
  | None => (u64_max, [], w)
  | Some file =>
      if length =? 0 then (0, [], w)
      else fread file data_size length w
  end.

Definition WriteImpl (f : IOFile) (data : str) (length data_size : Z)
    (w : World) : Z * World :=
  match m_file f with
  | None => (u64_max, w)
  | Some file =>
      if length =? 0 then (0, w)
      else fwrite data data_size length file w
  end.

End IOFile.

Arguments IOFile : clear implicits.

(* ================================================================== *)
(** ** GetUserPath *)
(* ================================================================== *)

Inductive UserPath :=
  | CacheDir | ConfigDir | KeysDir | LogDir | NANDDir | RootDir | SDMCDir
  | LoadDir | DumpDir | ScreenshotsDir | ShaderDir | SysDataDir | UserDir.

#[global] Instance UserPath_eq_dec : EqDecision UserPath.
Proof. solve_decision. Defined.

Definition UserPath_to_nat (p : UserPath) : nat :=
  match p with
  | CacheDir => 0 | ConfigDir => 1 | KeysDir => 2 | LogDir => 3
  | NANDDir => 4 | RootDir => 5 | SDMCDir => 6 | LoadDir => 7
  | DumpDir => 8 | ScreenshotsDir => 9 | ShaderDir => 10
  | SysDataDir => 11 | UserDir => 12
  end%nat.

Definition UserPath_of_nat (n : nat) : UserPath :=
  match n with
  | 0 => CacheDir | 1 => ConfigDir | 2 => KeysDir | 3 => LogDir
  | 4 => NANDDir | 5 => RootDir | 6 => SDMCDir | 7 => LoadDir
  | 8 => DumpDir | 9 => ScreenshotsDir | 10 => ShaderDir
  | 11 => SysDataDir | _ => UserDir
  end%nat.

#[global] Instance UserPath_countable : Countable UserPath.
Proof.
  apply (inj_countable' UserPath_to_nat UserPath_of_nat).
  intros []; reflexivity.
Defined.

(** The string macros of common/common_paths.h, which is not part of the
    sources: they are parameters of the model. *)
Class CommonPaths := {
  DIR_SEP : str;
  ROOT_DIR : str;
  USERDATA_DIR : str;
  EMU_DATA_DIR : str;
  CONFIG_DIR : str;
  CACHE_DIR : str;
  SDMC_DIR : str;
  NAND_DIR : str;
  LOAD_DIR : str;
  DUMP_DIR : str;
  SCREENSHOTS_DIR : str;
  SHADER_DIR : str;
  SYSDATA_DIR : str;
  KEYS_DIR : str;
  LOG_DIR : str;
}.

(** What the process sees of its host: the file system through
    [fs::exists] and [fs::is_directory], the environment, the password
    database entry of the current user ([None]: [getpwuid] returned null),
    and the two Windows shell folders. *)
Class Host := {
  fs_exists : str -> bool;
  fs_is_directory : str -> bool;
  getenv : str -> option str;
  getpwuid_dir : option str;
  GetExeDirectory : str;
  AppDataRoamingDirectory : str;
}.

(** The function-local [static std::unordered_map<UserPath, std::string>
    paths], threaded through every call; [None] is an aborted process. *)
Definition Reg (A : Type) : Type :=
  gmap UserPath str -> option (A * gmap UserPath str).

#[global] Instance Reg_ret : MRet Reg := fun A x m => Some (x, m).
#[global] Instance Reg_bind : MBind Reg := fun A B k c m =>
  match c m with
  | Some (x, m') => k x m'
  | None => None
  end.

(** [paths[k]]: a missing key is inserted with an empty string. *)
Definition index (k : UserPath) : Reg str := fun m =>
  match m !! k with
  | Some v => Some (v, m)
  | None => Some ([], <[k := []]> m)
  end.

(** [paths[k] = v]. *)
Definition assign (k : UserPath) (v : str) : Reg unit := fun m =>
  Some (tt, <[k := v]> m).

(** [paths.emplace(k, v)]: no effect when the key is already present. *)
Definition emplace (k : UserPath) (v : str) : Reg unit := fun m =>
  match m !! k with
  | Some _ => Some (tt, m)
  | None => Some (tt, <[k := v]> m)
  end.

(** Modelled from the spec: [ASSERT_MSG] comes from common/assert.h, which
    is not part of the sources; a failed assertion is a fatal error that
    aborts the process. *)
Definition ASSERT_MSG (cond : bool) : option unit :=
  if cond then Some tt else None.

Definition lift {A} (o : option A) : Reg A := fun m =>
  match o with Some x => Some (x, m) | None => None end.

Definition str_eqb (a b : str) : bool := bool_decide (a = b).

Section UserPaths.
Context `{!CommonPaths} `{!Host}.

(** [GetHomeDirectory]; the [static] cache only saves repeated lookups of
    an unchanging host. *)
Definition GetHomeDirectory : option str :=
  match getenv (lit "HOME") with
  | Some envvar => Some envvar
  | None => pw_dir ← getpwuid_dir; Some pw_dir
  end.

Definition GetUserDirectory (envvar : str) : option str :=
  user_dir ←
    match getenv envvar with
    | Some directory => Some directory
    | None =>
        subdirectory ←
          (if str_eqb envvar (lit "XDG_DATA_HOME") then
             Some (DIR_SEP ++ lit ".local" ++ DIR_SEP ++ lit "share")
           else if str_eqb envvar (lit "XDG_CONFIG_HOME") then
             Some (DIR_SEP ++ lit ".config")
           else if str_eqb envvar (lit "XDG_CACHE_HOME") then
             Some (DIR_SEP ++ lit ".cache")
           else _ ← ASSERT_MSG false; Some []);
        home ← GetHomeDirectory;
        Some (home ++ subdirectory)
    end;
  _ ← ASSERT_MSG (negb (empty user_dir));
  _ ← ASSERT_MSG (match user_dir with c :: _ => Ascii.eqb c "/"%char | [] => false end);
  Some user_dir.

(** [user_path] is a reference to [paths[UserPath::UserDir]]: reading it
    reads the table, assigning to it updates the table. *)
Definition user_path : Reg str := index UserDir.

(** The derived entries that both build variants emplace alike. *)
Definition emplace_common : Reg unit :=
  u ← user_path; emplace SDMCDir (u ++ SDMC_DIR ++ DIR_SEP);;
  u ← user_path; emplace NANDDir (u ++ NAND_DIR ++ DIR_SEP);;
  u ← user_path; emplace LoadDir (u ++ LOAD_DIR ++ DIR_SEP);;
  u ← user_path; emplace DumpDir (u ++ DUMP_DIR ++ DIR_SEP);;
  u ← user_path; emplace ScreenshotsDir (u ++ SCREENSHOTS_DIR ++ DIR_SEP);;
  u ← user_path; emplace ShaderDir (u ++ SHADER_DIR ++ DIR_SEP);;
  u ← user_path; emplace SysDataDir (u ++ SYSDATA_DIR ++ DIR_SEP);;
  u ← user_path; emplace KeysDir (u ++ KEYS_DIR ++ DIR_SEP);;
  u ← user_path; emplace LogDir (u ++ LOG_DIR ++ DIR_SEP).

(** The body of [if (user_path.empty())]. *)
Definition set_up_paths (plat : Platform) : Reg unit :=
  match plat with
  | Windows =>
      assign UserDir (GetExeDirectory ++ DIR_SEP ++ USERDATA_DIR ++ DIR_SEP);;
      u ← user_path;
      (if negb (fs_is_directory u) then
         assign UserDir (AppDataRoamingDirectory ++ DIR_SEP ++ EMU_DATA_DIR ++ DIR_SEP)
       else mret tt);;
      u ← user_path; emplace ConfigDir (u ++ CONFIG_DIR ++ DIR_SEP);;
      u ← user_path; emplace CacheDir (u ++ CACHE_DIR ++ DIR_SEP)
  | Posix =>
      if fs_exists (ROOT_DIR ++ DIR_SEP ++ USERDATA_DIR) then
        assign UserDir (ROOT_DIR ++ DIR_SEP ++ USERDATA_DIR ++ DIR_SEP);;
        u ← user_path; emplace ConfigDir (u ++ CONFIG_DIR ++ DIR_SEP);;
        u ← user_path; emplace CacheDir (u ++ CACHE_DIR ++ DIR_SEP)
      else
        data_dir ← lift (GetUserDirectory (lit "XDG_DATA_HOME"));
        config_dir ← lift (GetUserDirectory (lit "XDG_CONFIG_HOME"));
        cache_dir ← lift (GetUserDirectory (lit "XDG_CACHE_HOME"));
        assign UserDir (data_dir ++ DIR_SEP ++ EMU_DATA_DIR ++ DIR_SEP);;
        emplace ConfigDir (config_dir ++ DIR_SEP ++ EMU_DATA_DIR ++ DIR_SEP);;
        emplace CacheDir (cache_dir ++ DIR_SEP ++ EMU_DATA_DIR ++ DIR_SEP)
  end;;
  emplace_common.

(** The [switch (path)] that follows an accepted override. *)
Definition cascade (path : UserPath) : Reg unit :=
  match path with
  | RootDir =>
      root ← index RootDir; assign UserDir (root ++ DIR_SEP)
  | UserDir =>
      root ← index RootDir; assign UserDir (root ++ DIR_SEP);;
      u ← user_path; assign ConfigDir (u ++ CONFIG_DIR ++ DIR_SEP);;
      u ← user_path; assign CacheDir (u ++ CACHE_DIR ++ DIR_SEP);;
      u ← user_path; assign SDMCDir (u ++ SDMC_DIR ++ DIR_SEP);;
      u ← user_path; assign NANDDir (u ++ NAND_DIR ++ DIR_SEP)
  | _ => mret tt
  end.

Definition GetUserPath (plat : Platform) (path : UserPath) (new_path : str)
    : Reg str :=
  u ← user_path;
  (if empty u then set_up_paths plat else mret tt);;
  if negb (empty new_path) then
    if negb (fs_is_directory new_path) then
      index path
    else
      assign path new_path;;
      cascade path;;
      index path
  else
    index path.

(** A sequence of calls, each a role and a [new_path] (empty for a plain
    query), run one after the other on the same table. *)
Fixpoint run (plat : Platform) (calls : list (UserPath * str)) : Reg unit :=
  match calls with
  | [] => mret tt
  | (path, new_path) :: rest =>
      GetUserPath plat path new_path;; run plat rest
  end.

End UserPaths.

(* ================================================================== *)
(** ** More of IOFile *)
(* ================================================================== *)

(** The further host calls behind [Open], [Flush] and [Resize].  On
    Windows the file name and the mode pass through
    [Common::UTF8ToUTF16W] before they reach [_wfsopen] or [_wfopen_s];
    the host functions take the strings as the source has them.
    [wfopen_s] is given the pointer it may overwrite and yields its
    result code and the pointer afterwards.  [ftruncate] stands for
    [ftruncate(fileno(f), size)] and for [_chsize_s(_fileno(f), size)]. *)
Class StdioFiles (FILE World : Type) := {
  fopen : str -> str -> World -> option FILE * World;
  wfsopen : str -> str -> Z -> World -> option FILE * World;
  wfopen_s : option FILE -> str -> str -> World -> Z * option FILE * World;
  fflush : FILE -> World -> Z * World;
  ftruncate : FILE -> Z -> World -> Z * World;
}.

Section IOFileMore.
Context {FILE World : Type} {stdio : Stdio FILE World}
        {files : StdioFiles FILE World}.

Definition Open (plat : Platform) (f : IOFile FILE)
    (filename openmode : str) (flags : Z) (w : World)
    : bool * IOFile FILE * World :=
  let '(_, f, w) := Close f w in
  match plat with
  | Windows =>
      if negb (flags =? 0) then
        let '(file, w) := wfsopen filename openmode flags w in
        (match file with Some _ => true | None => false end,
         {| m_file := file |}, w)
      else
        let '(r, file, w) := wfopen_s (m_file f) filename openmode w in
        (r =? 0, {| m_file := file |}, w)
  | Posix =>
      let '(file, w) := fopen filename openmode w in
      (match file with Some _ => true | None => false end,
       {| m_file := file |}, w)
  end.

Definition Seek (f : IOFile FILE) (off origin : Z) (w : World) : bool * World :=
  match m_file f with
  | None => (false, w)
  | Some file => let '(r, w) := fseeko file off origin w in (0 =? r, w)
  end.

Definition Flush (f : IOFile FILE) (w : World) : bool * World :=
  match m_file f with
  | None => (false, w)
  | Some file => let '(r, w) := fflush file w in (0 =? r, w)
  end.

(** The [u64] size reaches the host call as the signed 64-bit value of
    its [off_t] or [__int64] parameter. *)
Definition Resize (f : IOFile FILE) (size : Z) (w : World) : bool * World :=
  match m_file f with
  | None => (false, w)
  | Some file => let '(r, w) := ftruncate file (to_s64 size) w in (0 =? r, w)
  end.

End IOFileMore.

(* ================================================================== *)
(** ** Operations on the file system *)
(* ================================================================== *)

(** The [std::filesystem] and directory-stream calls, over a host state
    [World]: each mutating call yields its success flag and the new state.
    [read_directory] is the sequence of names that [readdir] (on Windows
    [FindFirstFileW]/[FindNextFileW]) delivers for a directory, [None]
    when the directory cannot be opened. *)
Class Filesystem (World : Type) := {
  exists_in : str -> World -> bool;
  create_directories : str -> World -> bool * World;
  read_directory : str -> World -> option (list str);
}.

Section FileOps.
Context {World : Type} {filesystem : Filesystem World}.

Definition CreateDirs (path : str) (w : World) : bool * World :=
  if exists_in path w then (true, w)
  else
    let '(success, w) := create_directories path w in
    if negb success then (false, w) else (true, w).

Definition CreateFullPath (plat : Platform) (path : str) (w : World)
    : option (bool * World) :=
  let new_path := SanitizePath plat path ForwardSlash in
  if rfind "."%char new_path npos =? npos then
    Some (CreateDirs new_path w)
  else
    dir ← substr 0 (rfind "/"%char new_path npos) new_path;
    Some (CreateDirs dir w).

(** The body of the directory loop of [ForeachDirectoryEntry]: the flag
    [callback_error], the entries found and the state the callback leaves.
    A callback takes the directory and the entry name and yields its
    result, the value it stored in [ret_entries] and its new state. *)
Fixpoint foreach_loop {S : Type} (callback : str -> str -> S -> bool * Z * S)
    (directory : str) (names : list str) (found_entries : Z) (st : S)
    : bool * Z * S :=
  match names with
  | [] => (false, found_entries, st)
  | virtual_name :: rest =>
      if str_eqb virtual_name (lit ".") || str_eqb virtual_name (lit "..") then
        foreach_loop callback directory rest found_entries st
      else
        let '(ok, ret_entries, st) := callback directory virtual_name st in
        if negb ok then (true, found_entries, st)
        else foreach_loop callback directory rest
               (to_u64 (found_entries + ret_entries)) st
  end.

(** [num_entries_out] is [None] for a null pointer, otherwise the value
    the pointer refers to; the value afterwards is part of the result. *)
Definition ForeachDirectoryEntry {S : Type} (num_entries_out : option Z)
    (directory : str) (callback : str -> str -> S -> bool * Z * S)
    (w : World) (st : S) : bool * option Z * S :=
  match read_directory directory w with
  | None => (false, num_entries_out, st)
  | Some names =>
      let '(callback_error, found_entries, st) :=
        foreach_loop callback directory names 0 st in
      if callback_error then (false, num_entries_out, st)
      else (true,
            match num_entries_out with
            | Some _ => Some found_entries
            | None => None
            end, st)
  end.

End FileOps.

(* ================================================================== *)
(** ** Callers of GetUserPath *)
(* ================================================================== *)

Definition GetNANDRegistrationDir `{!CommonPaths} `{!Host}
    (plat : Platform) (system : bool) : Reg str :=
  if system then
    nand ← GetUserPath plat NANDDir [];
    mret (nand ++ lit "system/Contents/registered/")
  else
    nand ← GetUserPath plat NANDDir [];
    mret (nand ++ lit "user/Contents/registered/").

End FS.

Import Std FS.

(* ================================================================== *)
(** * Notions used to state the properties *)
(* ================================================================== *)

(** A path free of both separator characters. *)
Definition no_slash (s : str) : Prop := Forall (fun c => is_slash c = false) s.

(** Splitting as the specification words it: cut at every [delim] and keep
    every piece, the empty ones at either end included. *)
Fixpoint split_keep_empty (delim : ascii) (s : str) : list str :=
  match s with
  | [] => [[]]
  | x :: t =>
      if Ascii.eqb x delim then [] :: split_keep_empty delim t
      else match split_keep_empty delim t with
           | h :: r => (x :: h) :: r
           | [] => [[x]]
           end
  end.

(** Forget one empty final piece. *)
Definition drop_empty_last (l : list str) : list str :=
  match last l with
  | Some [] => removelast l
  | _ => l
  end.

(** No two neighbouring characters of [l] are both [c]. *)
Fixpoint no_double (c : ascii) (l : str) : Prop :=
  match l with
  | [] => True
  | x :: t =>
      match t with
      | [] => True
      | y :: _ => ~ (x = c /\ y = c)
      end /\ no_double c t
  end.

(** The path consists of separator characters only. *)
Definition all_slashes (s : str) : Prop := Forall (fun c => is_slash c = true) s.

(** The predicate [SanitizePath] hands to [std::unique]. *)
Definition both_are (type2 c1 c2 : ascii) : bool :=
  Ascii.eqb c1 type2 && Ascii.eqb c2 type2.

(** What a path looks like after one pass of [SanitizePath]: no [type1]
    left, no doubled [type2] and no separator at the end. *)
Definition settled (type1 type2 : ascii) (s : str) : Prop :=
  Forall (fun x => x <> type1) s /\ no_double type2 s /\
  forall c, last s = Some c -> is_slash c = false.

(** [SanitizePath] once [type1] and [type2] have been chosen. *)
Definition sanitize_with (plat : Platform) (type1 type2 : ascii) (path_ : str)
    : str :=
  let path := replace type1 type2 path_ in
  let pred := fun c1 c2 => Ascii.eqb c1 type2 && Ascii.eqb c2 type2 in
  RemoveTrailingSlash
    match plat, path with
    | Windows, c :: rest => c :: unique pred rest
    | _, _ => unique pred path
    end.

(** A host with one in-memory file, used to run [IOFile] on concrete
    inputs: the bytes of the file and its position indicator. *)
Definition mem_stdio : Stdio unit (str * Z) := {|
  fclose := fun _ w => (0, w);
  ftello := fun _ w => w.2;
  fseeko := fun _ off origin w =>
    let target := if origin =? SEEK_END then size w.1 + off else off in
    if target <? 0 then (-1, w) else (0, (w.1, target));
  fread := fun _ data_size count w =>
    let avail := Z.max 0 (size w.1 - w.2) in
    let n := if data_size =? 0 then 0 else Z.min count (avail / data_size) in
    (n, take (Z.to_nat (n * data_size)) (drop (Z.to_nat w.2) w.1),
     (w.1, w.2 + n * data_size));
  fwrite := fun data data_size count _ w =>
    let bytes := take (Z.to_nat (count * data_size)) data in
    (count,
     (take (Z.to_nat w.2) w.1 ++ bytes
        ++ drop (Z.to_nat (w.2 + count * data_size)) w.1,
      w.2 + count * data_size))
|}.

(** Reading an entry of the table without touching it: what a later
    [paths[k]] would return. *)
Definition paths_at (m : gmap UserPath str) (k : UserPath) : str :=
  default [] (m !! k).

(** The value a call returns, when it returns. *)
Definition value_of {A} (c : Reg A) (m : gmap UserPath str) : option A :=
  fst <$> c m.


(** The two halves of [GetUserPath]: the one-time set-up and the handling
    of [new_path]. *)
Definition set_up_once `{!CommonPaths} `{!Host} (plat : Platform) : Reg unit :=
  u ← user_path;
  if empty u then set_up_paths plat else mret tt.

Definition apply_new_path `{!CommonPaths} `{!Host}
    (path : UserPath) (new_path : str) : Reg str :=
  if negb (empty new_path) then
    if negb (fs_is_directory new_path) then
      index path
    else
      assign path new_path;;
      cascade path;;
      index path
  else
    index path.

(** The table has been set up, with the configuration directory placed
    directly under the user directory. *)
Definition config_under_user `{!CommonPaths} (m : gmap UserPath str) : Prop :=
  exists u : str,
    m !! UserDir = Some u /\ u <> [] /\
    m !! ConfigDir = Some (u ++ CONFIG_DIR ++ DIR_SEP).

(** A call that is not an accepted override of the root or of the
    configuration directory. *)
Definition keeps_config `{!Host} (call : UserPath * str) : Prop :=
  call.1 = RootDir \/ call.1 = ConfigDir ->
  call.2 = [] \/ fs_is_directory call.2 = false.

(** The set-up builds the configuration and cache directories from
    [user_path]: on the Windows build, whether [user_path] is the
    directory next to the executable or the one under the roaming
    application data, and on the POSIX build when
    [ROOT_DIR DIR_SEP USERDATA_DIR] exists. *)
Definition builds_from_user_path `{!CommonPaths} `{!Host} (plat : Platform) : Prop :=
  plat = Windows \/ fs_exists (ROOT_DIR ++ DIR_SEP ++ USERDATA_DIR) = true.

(** Sample values for the macros of common/common_paths.h. *)
Definition sample_paths : CommonPaths := {|
  DIR_SEP := lit "/"; ROOT_DIR := lit "."; USERDATA_DIR := lit "user";
  EMU_DATA_DIR := lit "yuzu"; CONFIG_DIR := lit "config";
  CACHE_DIR := lit "cache"; SDMC_DIR := lit "sdmc"; NAND_DIR := lit "nand";
  LOAD_DIR := lit "load"; DUMP_DIR := lit "dump";
  SCREENSHOTS_DIR := lit "screenshots"; SHADER_DIR := lit "shader";
  SYSDATA_DIR := lit "sysdata"; KEYS_DIR := lit "keys"; LOG_DIR := lit "log"
|}.

(** A POSIX host without a ./user directory: HOME is /home/u, no XDG
    variable is set, and /data is the only directory a caller may name. *)
Definition xdg_host : Host := {|
  fs_exists := fun p => str_eqb p (lit "/data");
  fs_is_directory := fun p => str_eqb p (lit "/data");
  getenv := fun v => if str_eqb v (lit "HOME") then Some (lit "/home/u") else None;
  getpwuid_dir := Some (lit "/home/u");
  GetExeDirectory := [];
  AppDataRoamingDirectory := []
|}.

(** The same host with a ./user directory next to the executable. *)
Definition portable_host : Host := {|
  fs_exists := fun p => str_eqb p (lit "./user") || str_eqb p (lit "/data");
  fs_is_directory := fun p => str_eqb p (lit "./user") || str_eqb p (lit "/data");
  getenv := fun v => if str_eqb v (lit "HOME") then Some (lit "/home/u") else None;
  getpwuid_dir := Some (lit "/home/u");
  GetExeDirectory := [];
  AppDataRoamingDirectory := []
|}.

(** A name without a dot. *)
Definition no_dot (s : str) : Prop := Forall (fun c => Ascii.eqb c "."%char = false) s.

(** The components put back together with [delim] between them. *)
Fixpoint join_with (delim : ascii) (l : list str) : str :=
  match l with
  | [] => []
  | [x] => x
  | x :: rest => x ++ delim :: join_with delim rest
  end.

(** The separator [SanitizePath] converts to, and the one it converts
    from, for each build and each preference. *)
Definition target_separator (plat : Platform) (sep : DirectorySeparator) : ascii :=
  match sep, plat with
  | BackwardSlash, _ => "\"%char
  | PlatformDefault, Windows => "\"%char
  | _, _ => "/"%char
  end.

Definition other_separator (plat : Platform) (sep : DirectorySeparator) : ascii :=
  match sep, plat with
  | BackwardSlash, _ => "/"%char
  | PlatformDefault, Windows => "/"%char
  | _, _ => "\"%char
  end.

(** The characters of a path that are not separators, in order. *)
Definition non_separators (s : str) : str :=
  List.filter (fun c => negb (is_slash c)) s.

(** The characters of [letters] that the short-name loop accepts,
    uppercased. *)
Definition accepted (letters : str) : str :=
  map toupper
    (List.filter (fun c => find c forbidden_characters =? npos) letters).

(** The short name built from [stem]: the accepted characters padded with
    spaces to eight, or, when there are more than eight, the first six
    followed by the marker; then the terminator. *)
Definition short_name_of (stem : str) : str :=
  (if (length (accepted stem) <=? 8)%nat
   then accepted stem ++ replicate (8 - length (accepted stem)) " "%char
   else take 6 (accepted stem) ++ ["~"%char; "1"%char]) ++ [zero].

(** The extension built from [ext]: its first three characters uppercased,
    padded with spaces to three; then the terminator. *)
Definition extension_of (ext : str) : str :=
  map toupper (take 3 ext)
    ++ replicate (3 - length (take 3 ext)) " "%char ++ [zero].

(** The in-memory host again, for the calls behind [Open], [Flush] and
    [Resize]: opening always yields the one file, rewound. *)
Definition mem_files : StdioFiles unit (str * Z) := {|
  fopen := fun _ _ w => (Some tt, (w.1, 0));
  wfsopen := fun _ _ _ w => (Some tt, (w.1, 0));
  wfopen_s := fun _ _ _ w => (0, Some tt, (w.1, 0));
  fflush := fun _ w => (0, w);
  ftruncate := fun _ n w =>
    if n <? 0 then (-1, w)
    else (0, (take (Z.to_nat n) w.1
                ++ replicate (Z.to_nat n - length w.1) zero, w.2))
|}.

(** A host file system given by the set of its directories, each with the
    names a directory stream delivers for it. *)
Definition listing_fs : Filesystem (list (str * list str)) := {|
  exists_in := fun p w => existsb (fun e => str_eqb e.1 p) w;
  create_directories := fun p w => (true, w ++ [(p, [lit "."; lit ".."])]);
  read_directory := fun p w =>
    snd <$> List.find (fun e => str_eqb e.1 p) w
|}.

(** The sum of a list of [u64] counts, as the loop accumulates it. *)
Definition sum_u64 (counts : list Z) : Z :=
  fold_left (fun acc n => to_u64 (acc + n)) counts 0.

(** The entries of a directory listing that are passed on to a callback. *)
Definition real_entries (names : list str) : list str :=
  List.filter
    (fun n => negb (str_eqb n (lit ".") || str_eqb n (lit ".."))) names.

(** A computation that leaves the user directory entry readable as it
    was; one that leaves it non-empty if it was; one that leaves it
    non-empty in any case. *)
Definition keeps_user {A} (c : Reg A) : Prop :=
  forall (m : gmap UserPath str) x m',
    c m = Some (x, m') -> paths_at m' UserDir = paths_at m UserDir.

Definition keeps_set_up {A} (c : Reg A) : Prop :=
  forall (m : gmap UserPath str) x m',
    c m = Some (x, m') ->
    paths_at m UserDir <> [] -> paths_at m' UserDir <> [].

Definition sets_up {A} (c : Reg A) : Prop :=
  forall (m : gmap UserPath str) x m',
    c m = Some (x, m') -> paths_at m' UserDir <> [].

(** A computation that never aborts. *)
Definition never_aborts {A} (c : Reg A) : Prop :=
  forall m : gmap UserPath str, is_Some (c m).






(** The calls made when every one of [entries] is handed to [callback]
    in turn, each call starting in the state the one before it left: the
    result and the count of every call, and the state at the end. *)
Fixpoint callback_run {S : Type} (callback : str -> str -> S -> bool * Z * S)
    (directory : str) (entries : list str) (st : S)
    : list (bool * Z) * S :=
  match entries with
  | [] => ([], st)
  | virtual_name :: rest =>
      let '(result, st) := callback directory virtual_name st in
      let '(results, st) := callback_run callback directory rest st in
      (result :: results, st)
  end.

(** Sample strings stay below [std::string::max_size()]. *)
Ltac small_size := unfold size, npos; simpl; lia.

(** Unfold the table operations down to map lookups and inserts. *)
Ltac reg_unfold :=
  unfold apply_new_path, set_up_once, set_up_paths, emplace_common, cascade,
    user_path, index, assign, emplace, lift, mbind, Reg_bind, mret, Reg_ret in *.

(* ================================================================== *)
(** * Properties *)
(* ================================================================== *)


(** ** Facts about the string searches *)

Section StringSearch.
Implicit Types (c x : ascii) (s a b : str).

Lemma size_app a b : size (a ++ b) = size a + size b.
Proof. unfold size. rewrite length_app. lia. Qed.

Lemma size_nonneg s : 0 <= size s.
Proof. unfold size. lia. Qed.

Lemma eqb_slash_false c x :
  is_slash c = true -> is_slash x = false -> Ascii.eqb x c = false.
Proof.
  unfold is_slash. intros Hc Hx.
  destruct (Ascii.eqb_spec x c) as [->|]; [congruence | reflexivity].
Qed.

Lemma no_slash_absent c s :
  is_slash c = true -> no_slash s -> Forall (fun x => Ascii.eqb x c = false) s.
Proof.
  intros Hc Hs. eapply Forall_impl; [exact Hs|].
  intros x. by apply eqb_slash_false.
Qed.

Lemma find_from_absent c s i :
  Forall (fun x => Ascii.eqb x c = false) s -> find_from c s i = npos.
Proof.
  intros H. revert i. induction H as [|x t Hx _ IH]; intros i; simpl.
  - reflexivity.
  - rewrite Hx. apply IH.
Qed.

Lemma rfind_from_absent c pos s i found :
  Forall (fun x => Ascii.eqb x c = false) s -> rfind_from c pos s i found = found.
Proof.
  intros H. revert i found. induction H as [|x t Hx _ IH]; intros i found; simpl.
  - reflexivity.
  - rewrite Hx, andb_false_r. apply IH.
Qed.

Lemma rfind_from_app c pos a b i found :
  rfind_from c pos (a ++ b) i found
  = rfind_from c pos b (i + size a) (rfind_from c pos a i found).
Proof.
  revert i found. induction a as [|x a IH]; intros i found; simpl.
  - f_equal. unfold size. simpl. lia.
  - rewrite IH. f_equal. unfold size. simpl length. lia.
Qed.

(** A scan either keeps the hit it started with or lands inside the
    scanned range. *)
Lemma rfind_from_range c pos s i found :
  rfind_from c pos s i found = found
  \/ i <= rfind_from c pos s i found < i + size s.
Proof.
  revert i found. induction s as [|x s IH]; intros i found; simpl.
  - by left.
  - pose proof (size_nonneg s).
    replace (size (x :: s)) with (1 + size s) by (unfold size; simpl length; lia).
    destruct ((i <=? pos) && Ascii.eqb x c).
    + destruct (IH (i + 1) i) as [-> | ?]; right; lia.
    + destruct (IH (i + 1) found) as [-> | ?]; [by left | right; lia].
Qed.

(** The last occurrence: nothing equal to [c] follows it. *)
Lemma rfind_last_occurrence c a b :
  size (a ++ c :: b) < npos ->
  Forall (fun x => Ascii.eqb x c = false) b ->
  rfind c (a ++ c :: b) npos = size a.
Proof.
  intros Hsz Hb. unfold rfind. rewrite rfind_from_app. simpl.
  rewrite Ascii.eqb_refl, andb_true_r.
  rewrite size_app in Hsz. pose proof (size_nonneg (c :: b)).
  destruct (Z.leb_spec (0 + size a) npos); [|lia].
  by rewrite rfind_from_absent.
Qed.

(** Searching for a character other than the one at the split point only
    ever finds something to its left. *)
Lemma rfind_left_of c a x b :
  Forall (fun y => Ascii.eqb y c = false) (x :: b) ->
  rfind c (a ++ x :: b) npos = npos \/ 0 <= rfind c (a ++ x :: b) npos < size a.
Proof.
  intros Hb. unfold rfind. rewrite rfind_from_app.
  rewrite (rfind_from_absent _ _ (x :: b)) by done.
  destruct (rfind_from_range c npos a 0 npos) as [-> | ?]; [by left | right; lia].
Qed.

Lemma substr_prefix a b :
  substr 0 (size a) (a ++ b) = Some a.
Proof.
  unfold substr. pose proof (size_nonneg (a ++ b)).
  destruct (Z.ltb_spec (size (a ++ b)) 0); [lia|].
  rewrite size_app. pose proof (size_nonneg b).
  rewrite Z.min_l by lia. unfold size. rewrite Nat2Z.id.
  change (Z.to_nat 0) with 0%nat. rewrite drop_0.
  by rewrite take_app_length.
Qed.

Lemma substr_whole s n :
  size s <= n -> substr 0 n s = Some s.
Proof.
  intros Hn. unfold substr. pose proof (size_nonneg s).
  destruct (Z.ltb_spec (size s) 0); [lia|].
  rewrite Z.min_r by lia. rewrite Z.sub_0_r. unfold size.
  rewrite Nat2Z.id. change (Z.to_nat 0) with 0%nat.
  by rewrite drop_0, firstn_all.
Qed.

End StringSearch.

(** ** GetParentPath *)

Section ParentPath.

Lemma GetParentPath_no_separator (path : str) :
  size path < npos -> no_slash path -> GetParentPath path = Some path.
Proof.
  intros Hsz Hns. unfold GetParentPath, rfind.
  rewrite !rfind_from_absent by (by apply no_slash_absent).
  rewrite Z.eqb_refl. simpl. apply substr_whole. rewrite Z.min_id. lia.
Qed.

Lemma GetParentPath_at_last_separator (a b : str) (c : ascii) :
  size (a ++ c :: b) < npos -> is_slash c = true -> no_slash b ->
  GetParentPath (a ++ c :: b) = Some a.
Proof.
  intros Hsz Hc Hb. unfold GetParentPath.
  assert (Hcases : c = "\"%char \/ c = "/"%char).
  { unfold is_slash in Hc. apply orb_true_iff in Hc as [H|H];
      apply Ascii.eqb_eq in H; auto. }
  pose proof (size_nonneg a) as Ha.
  assert (Hlt : size a < npos).
  { rewrite size_app in Hsz. pose proof (size_nonneg (c :: b)). lia. }
  set (other := fun d : ascii =>
    Forall (fun y => Ascii.eqb y d = false) (c :: b)).
  destruct Hcases as [-> | ->].
  - rewrite (rfind_last_occurrence "\"%char) by
      (done || by apply no_slash_absent).
    assert (Ho : other "/"%char).
    { constructor; [reflexivity | by apply no_slash_absent]. }
    destruct (rfind_left_of "/"%char a _ b Ho) as [-> | Hr].
    + rewrite Z.eqb_refl, orb_true_r. rewrite Z.min_l by lia.
      apply substr_prefix.
    + destruct (Z.eqb_spec (size a) npos); [lia|].
      destruct (Z.eqb_spec (rfind "/"%char (a ++ "\"%char :: b) npos) npos); [lia|].
      simpl. rewrite Z.max_l by lia. apply substr_prefix.
  - rewrite (rfind_last_occurrence "/"%char) by
      (done || by apply no_slash_absent).
    assert (Ho : other "\"%char).
    { constructor; [reflexivity | by apply no_slash_absent]. }
    destruct (rfind_left_of "\"%char a _ b Ho) as [-> | Hr].
    + rewrite Z.eqb_refl. simpl. rewrite Z.min_r by lia.
      apply substr_prefix.
    + destruct (Z.eqb_spec (size a) npos); [lia|].
      destruct (Z.eqb_spec (rfind "\"%char (a ++ "/"%char :: b) npos) npos); [lia|].
      simpl. rewrite Z.max_r by lia. apply substr_prefix.
Qed.

End ParentPath.

(** C6 (amended): on a path that contains neither separator GetParentPath
    returns the whole path unchanged (both searches yield [npos], and
    [substr(0, npos)] is the entire view); on a path that contains at least
    one separator it returns the text before the right-most separator of
    either kind. *)
Theorem GetParentPath_spec (path : str) :
  size path < npos ->
  (no_slash path -> GetParentPath path = Some path) /\
  (forall (a b : str) (c : ascii),
      path = a ++ c :: b -> is_slash c = true -> no_slash b ->
      GetParentPath path = Some a).
Proof.
  intros Hsz. split.
  - by apply GetParentPath_no_separator.
  - intros a b c -> Hc Hb. by apply GetParentPath_at_last_separator.
Qed.

Lemma GetParentPath_spec_witness :
  GetParentPath (lit "abc") = Some (lit "abc") /\
  GetParentPath (lit "/a\b/c") = Some (lit "/a\b").
Proof.
  split.
  - apply (GetParentPath_spec (lit "abc")); [small_size | repeat constructor].
  - apply (proj2 (GetParentPath_spec (lit "/a\b/c") ltac:(small_size))
             (lit "/a\b") (lit "c") "/"%char);
      [reflexivity | reflexivity | repeat constructor].
Defined.

(** C6 as stated fails: "abc" has no separator, yet its parent path is
    "abc", not the empty string. *)
Lemma GetParentPath_no_separator_not_empty :
  no_slash (lit "abc") /\
  GetParentPath (lit "abc") = Some (lit "abc") /\
  GetParentPath (lit "abc") <> Some [].
Proof.
  split; [repeat constructor | split; [reflexivity | discriminate]].
Qed.

(** ** GetPathWithoutTop *)

Lemma GetPathWithoutTop_skip_separator (c : ascii) (path : str) :
  is_slash c = true -> path <> [] ->
  GetPathWithoutTop (c :: path) = GetPathWithoutTop path.
Proof.
  intros Hc Hne. unfold GetPathWithoutTop. simpl. rewrite Hc.
  destruct path; [done | reflexivity].
Qed.

(** C10: when what is left of the path after its leading separators
    contains no separator, GetPathWithoutTop returns exactly that remainder
    ([npos + 1] wraps to 0, so nothing more is cut off). *)
Theorem GetPathWithoutTop_single_component (seps rest : str) :
  size rest < npos ->
  Forall (fun c => is_slash c = true) seps -> no_slash rest ->
  GetPathWithoutTop (seps ++ rest) = Some rest.
Proof.
  intros Hsz Hseps Hrest. induction Hseps as [|c seps Hc _ IH]; simpl.
  - unfold GetPathWithoutTop. destruct rest as [|x t]; [reflexivity|].
    simpl empty. cbv iota.
    assert (Hx : is_slash x = false) by (by inversion Hrest).
    simpl remove_prefix_loop. rewrite Hx. unfold find.
    rewrite !find_from_absent by
      (apply no_slash_absent; [reflexivity | done]).
    replace (wrap (Z.min npos npos + 1)) with 0 by reflexivity.
    apply substr_whole. lia.
  - destruct (decide (seps ++ rest = [])) as [Hnil | Hne].
    + apply app_eq_nil in Hnil as [-> ->].
      unfold GetPathWithoutTop. simpl. by rewrite Hc.
    + by rewrite GetPathWithoutTop_skip_separator.
Qed.

Lemma GetPathWithoutTop_single_component_witness :
  GetPathWithoutTop (lit "/\/abc") = Some (lit "abc").
Proof.
  apply (GetPathWithoutTop_single_component (lit "/\/") (lit "abc"));
    [small_size | repeat constructor | repeat constructor].
Defined.

(** ** SplitPathComponents *)

Section Split.
Implicit Types (s item rest : str) (out : list str).

Lemma getline_loop_unfold s out :
  getline_loop s out =
  match getline "/"%char s with
  | None => out
  | Some (item, rest) => getline_loop rest (out ++ [item])
  end.
Proof.
  etransitivity; [apply getline_loop_equation_1|].
  destruct (inspect (getline "/"%char s)) as [[[item rest]|] E];
    simpl; rewrite E; reflexivity.
Qed.

Lemma getline_scan_length d s :
  (length (getline_scan d s).2 <= length s)%nat.
Proof.
  induction s as [|x s IH]; simpl; [lia|].
  destruct (Ascii.eqb x d); simpl; [lia|].
  destruct (getline_scan d s) as [i r]. simpl in *. lia.
Qed.

Lemma split_keep_empty_nonempty d s : split_keep_empty d s <> [].
Proof.
  destruct s as [|x s]; simpl; [done|].
  destruct (Ascii.eqb x d); [done|].
  by destruct (split_keep_empty d s).
Qed.

Lemma drop_empty_last_cons (h : str) (l : list str) :
  l <> [] -> drop_empty_last (h :: l) = h :: drop_empty_last l.
Proof.
  intros Hl. unfold drop_empty_last.
  destruct l as [|y l]; [done|].
  change (last (h :: y :: l)) with (last (y :: l)).
  change (removelast (h :: y :: l)) with (h :: removelast (y :: l)).
  by destruct (last (y :: l)) as [[|]|].
Qed.

(** One [getline] peels the first piece off the trimmed split. *)
Lemma drop_empty_last_getline d s item rest :
  s <> [] -> getline_scan d s = (item, rest) ->
  drop_empty_last (split_keep_empty d s)
  = item :: drop_empty_last (split_keep_empty d rest).
Proof.
  revert item rest. induction s as [|x t IH]; intros item rest Hne E; [done|].
  simpl in E |- *. destruct (Ascii.eqb x d).
  - injection E as <- <-.
    apply drop_empty_last_cons, split_keep_empty_nonempty.
  - destruct (getline_scan d t) as [item' rest'] eqn:E'.
    injection E as <- <-.
    destruct t as [|y t'].
    + simpl in E'. injection E' as <- <-. reflexivity.
    + specialize (IH item' rest' ltac:(done) eq_refl).
      destruct (split_keep_empty d (y :: t')) as [|h r] eqn:Esp.
      { by apply split_keep_empty_nonempty in Esp. }
      destruct r as [|h' r'].
      * unfold drop_empty_last in IH at 1. simpl in IH.
        destruct h; [done|]. injection IH as <- IH.
        rewrite <- IH. reflexivity.
      * rewrite drop_empty_last_cons in IH by done.
        injection IH as <- IH.
        rewrite drop_empty_last_cons by done. by rewrite IH.
Qed.

Lemma getline_loop_spec s out :
  getline_loop s out = out ++ drop_empty_last (split_keep_empty "/"%char s).
Proof.
  remember (length s) as n eqn:Hn. revert s out Hn.
  induction n as [n IH] using lt_wf_ind. intros s out ->.
  rewrite getline_loop_unfold. destruct s as [|x t].
  - simpl. by rewrite app_nil_r.
  - unfold getline.
    destruct (getline_scan "/"%char (x :: t)) as [item rest] eqn:E.
    pose proof (getline_scan_length "/"%char (x :: t)) as Hlen.
    rewrite E in Hlen. simpl in Hlen.
    assert (Hlt : (length rest < length (x :: t))%nat).
    { simpl in E. destruct (Ascii.eqb x "/"%char).
      - injection E as <- <-. simpl. lia.
      - pose proof (getline_scan_length "/"%char t) as Hlen'.
        destruct (getline_scan "/"%char t) as [i r].
        injection E as <- <-. simpl in *. lia. }
    rewrite (IH _ Hlt rest _ eq_refl).
    rewrite (drop_empty_last_getline _ (x :: t) item rest) by done.
    by rewrite <- app_assoc.
Qed.

Lemma split_keep_empty_snoc d s :
  split_keep_empty d (s ++ [d]) = split_keep_empty d s ++ [[]].
Proof.
  induction s as [|x s IH]; simpl.
  - by rewrite Ascii.eqb_refl.
  - destruct (Ascii.eqb x d); [by rewrite IH|].
    rewrite IH. pose proof (split_keep_empty_nonempty d s).
    by destruct (split_keep_empty d s).
Qed.

Lemma drop_empty_last_snoc (l : list str) : drop_empty_last (l ++ [[]]) = l.
Proof.
  unfold drop_empty_last. rewrite last_snoc. apply removelast_last.
Qed.

Lemma replace_slash (c : ascii) :
  is_slash c = true -> replace "\"%char "/"%char [c] = ["/"%char].
Proof.
  unfold is_slash. intros H. apply orb_true_iff in H as [H|H];
    apply Ascii.eqb_eq in H; by subst.
Qed.

(** Appending a character other than the delimiter extends the last piece. *)
Lemma split_keep_empty_snoc_other (d : ascii) s (x : ascii) :
  Ascii.eqb x d = false ->
  exists (l : list str) (h : str),
    split_keep_empty d (s ++ [x]) = l ++ [h ++ [x]].
Proof.
  intros Hx. induction s as [|y t IH]; simpl.
  - rewrite Hx. by exists [], [].
  - destruct IH as (l & h & ->).
    destruct (Ascii.eqb y d).
    + by exists ([] :: l), h.
    + destruct l as [|h0 l']; simpl.
      * by exists [], (y :: h).
      * by exists ((y :: h0) :: l'), h.
Qed.

(** The last piece is empty exactly for the empty text and for a text
    that ends in the delimiter. *)
Lemma split_keep_empty_last_empty (d : ascii) s :
  last (split_keep_empty d s) = Some [] <-> s = [] \/ exists s', s = s' ++ [d].
Proof.
  destruct s as [|x s' _] using rev_ind.
  - simpl. split; [by left | done].
  - destruct (Ascii.eqb_spec x d) as [->|Hne].
    + rewrite split_keep_empty_snoc, last_snoc. split; [|done].
      intros _. right. by exists s'.
    + assert (Hx : Ascii.eqb x d = false) by (by apply Ascii.eqb_neq).
      destruct (split_keep_empty_snoc_other d s' x Hx) as (l & h & ->).
      rewrite last_snoc. split.
      * intros [= E]. by destruct h.
      * intros [E | (s0 & E)]; [by destruct s'|].
        apply app_inj_tail in E as [_ ->]. done.
Qed.

Lemma replace_snoc (c : ascii) s :
  replace "\"%char "/"%char (s ++ [c])
  = replace "\"%char "/"%char s ++ replace "\"%char "/"%char [c].
Proof. unfold replace. by rewrite map_app. Qed.

Lemma replace_other (c : ascii) :
  is_slash c = false -> replace "\"%char "/"%char [c] = [c].
Proof.
  unfold is_slash, replace. simpl. by destruct (Ascii.eqb c "\"%char).
Qed.

Lemma is_slash_other (c : ascii) :
  is_slash c = false -> Ascii.eqb c "/"%char = false.
Proof. unfold is_slash. by intros [_ H]%orb_false_iff. Qed.

(** After the replacement a text ends in '/' exactly when it ended in a
    separator. *)
Lemma replace_ends_in_slash s :
  (exists s', replace "\"%char "/"%char s = s' ++ ["/"%char]) <->
  (exists p c, s = p ++ [c] /\ is_slash c = true).
Proof.
  destruct s as [|x p _] using rev_ind.
  - split; [intros [s' E]; by destruct s' | intros (p & c & E & _); by destruct p].
  - rewrite replace_snoc. destruct (is_slash x) eqn:Hx.
    + rewrite replace_slash by done. split; [|by eauto].
      intros _. by exists p, x.
    + rewrite replace_other by done. split.
      * intros [s' E]. apply app_inj_tail in E as [_ ->]. done.
      * intros (p0 & c & E & Hc). apply app_inj_tail in E as [_ ->]. congruence.
Qed.

End Split.

(** C7 (amended): for every path string, SplitPathComponents first
    replaces every backslash with a forward slash and then splits on '/',
    preserving every empty component but one: no entry is produced for the
    text after the last separator when that text is empty.  So a leading
    separator yields an empty first entry; a path p followed by one more
    separator yields exactly the pieces of p, all of them, the empty ones
    included ("a/" gives "a" alone, "a//" gives "a" and an empty entry);
    the empty path yields no entry; and the last entry is empty exactly
    when the path is a single separator or ends in two separators. *)
Theorem SplitPathComponents_spec :
  (forall path : str,
      SplitPathComponents path
      = drop_empty_last
          (split_keep_empty "/"%char (replace "\"%char "/"%char path))) /\
  (forall (c : ascii) (path : str),
      is_slash c = true -> head (SplitPathComponents (c :: path)) = Some []) /\
  (forall (c : ascii) (path : str),
      is_slash c = true ->
      SplitPathComponents (path ++ [c])
      = split_keep_empty "/"%char (replace "\"%char "/"%char path)) /\
  SplitPathComponents [] = [] /\
  (forall path : str,
      last (SplitPathComponents path) = Some [] <->
      exists (p : str) (c : ascii),
        path = p ++ [c] /\ is_slash c = true /\
        (p = [] \/ exists (p' : str) (c' : ascii),
                     p = p' ++ [c'] /\ is_slash c' = true)).
Proof.
  assert (Hmain : forall path : str,
      SplitPathComponents path
      = drop_empty_last
          (split_keep_empty "/"%char (replace "\"%char "/"%char path))).
  { intros path. unfold SplitPathComponents. by rewrite getline_loop_spec. }
  assert (Htail : forall (c : ascii) (path : str),
      is_slash c = true ->
      SplitPathComponents (path ++ [c])
      = split_keep_empty "/"%char (replace "\"%char "/"%char path)).
  { intros c path Hc. rewrite Hmain, replace_snoc, replace_slash by done.
    by rewrite split_keep_empty_snoc, drop_empty_last_snoc. }
  split; [exact Hmain|]. split; [|split; [exact Htail|split]].
  - intros c path Hc. rewrite Hmain.
    change (c :: path) with ([c] ++ path). unfold replace at 1.
    rewrite map_app. fold (replace "\"%char "/"%char [c]).
    fold (replace "\"%char "/"%char path). rewrite replace_slash by done.
    simpl. rewrite drop_empty_last_cons by apply split_keep_empty_nonempty.
    reflexivity.
  - reflexivity.
  - intros path. destruct path as [|x p _] using rev_ind.
    { split; [done | intros (p & c & E & _); by destruct p]. }
    destruct (is_slash x) eqn:Hx.
    + rewrite Htail, split_keep_empty_last_empty by done. split.
      * intros Hlast. exists p, x. split; [done|]. split; [done|].
        destruct Hlast as [E | Hends].
        -- left. by destruct p.
        -- right. by apply replace_ends_in_slash.
      * intros (p0 & c & E & _ & Hp0).
        apply app_inj_tail in E as [-> ->].
        destruct Hp0 as [-> | Hends]; [by left | right].
        by apply replace_ends_in_slash.
    + split.
      * rewrite Hmain, replace_snoc, replace_other by done.
        destruct (split_keep_empty_snoc_other "/"%char
                    (replace "\"%char "/"%char p) x (is_slash_other x Hx))
          as (l & h & ->).
        unfold drop_empty_last. rewrite last_snoc.
        destruct (h ++ [x]) as [|? ?] eqn:Eh; [by destruct h|].
        rewrite last_snoc. done.
      * intros (p0 & c & E & Hc & _).
        apply app_inj_tail in E as [_ ->]. congruence.
Qed.

Lemma SplitPathComponents_spec_witness :
  head (SplitPathComponents (lit "/a\b")) = Some [] /\
  SplitPathComponents (lit "a\b/") = [lit "a"; lit "b"] /\
  last (SplitPathComponents (lit "a/\")) = Some [].
Proof.
  destruct SplitPathComponents_spec as (_ & Hhead & Htail & _ & Hlast).
  split; [|split].
  - apply (Hhead "/"%char (lit "a\b")). reflexivity.
  - apply (Htail "/"%char (lit "a\b")). reflexivity.
  - apply (Hlast (lit "a/\")). exists (lit "a/"), "\"%char.
    split; [reflexivity|]. split; [reflexivity|]. right.
    exists (lit "a"), "/"%char. split; reflexivity.
Defined.

(** C7 as stated fails: the path "a/" ends in a separator, yet its only
    component is "a"; no empty last entry is produced. *)
Lemma SplitPathComponents_trailing_separator :
  SplitPathComponents (lit "a/") = [lit "a"] /\
  last (SplitPathComponents (lit "a/")) <> Some [].
Proof. split; [reflexivity | discriminate]. Qed.

(** ** SanitizePath *)

Section Sanitize.
Variables type1 type2 : ascii.
Hypothesis Hdiff : type1 <> type2.
Hypothesis Hslash2 : is_slash type2 = true.
Hypothesis Hslashes : forall c, is_slash c = true -> c = type1 \/ c = type2.

Local Abbreviation pred := (both_are type2).

Lemma pred_true c1 c2 : pred c1 c2 = true <-> c1 = type2 /\ c2 = type2.
Proof. unfold both_are. rewrite andb_true_iff, !Ascii.eqb_eq. tauto. Qed.

Lemma not_slash c : c <> type1 -> c <> type2 -> is_slash c = false.
Proof.
  intros H1 H2. destruct (is_slash c) eqn:E; [|done].
  destruct (Hslashes c E); congruence.
Qed.

Lemma replace_clean s : Forall (fun x => x <> type1) (replace type1 type2 s).
Proof.
  unfold replace. apply Forall_map, Forall_forall. intros x _. simpl.
  destruct (Ascii.eqb_spec x type1); congruence.
Qed.

Lemma replace_fixed s :
  Forall (fun x => x <> type1) s -> replace type1 type2 s = s.
Proof.
  induction 1 as [|x t Hx _ IH]; simpl; [done|].
  fold (replace type1 type2 t). rewrite IH.
  destruct (Ascii.eqb_spec x type1); congruence.
Qed.

Lemma unique_after_Forall (P : ascii -> Prop) k l :
  Forall P l -> Forall P (unique_after pred k l).
Proof.
  intros H. revert k. induction H as [|y t Hy _ IH]; intros k; simpl; [done|].
  destruct (pred k y); [apply IH | constructor; [done | apply IH]].
Qed.

Lemma unique_Forall (P : ascii -> Prop) l :
  Forall P l -> Forall P (unique pred l).
Proof.
  destruct 1 as [|x t Hx Ht]; simpl; [done|].
  constructor; [done | by apply unique_after_Forall].
Qed.

Lemma unique_after_no_double k l :
  no_double type2 (k :: unique_after pred k l).
Proof.
  revert k. induction l as [|y t IH]; intros k; simpl; [done|].
  destruct (pred k y) eqn:E; [apply IH|].
  split; [|apply IH].
  intros H. apply pred_true in H. congruence.
Qed.

Lemma unique_no_double l : no_double type2 (unique pred l).
Proof. destruct l; simpl; [done | apply unique_after_no_double]. Qed.

Lemma unique_after_fixed k l :
  no_double type2 (k :: l) -> unique_after pred k l = l.
Proof.
  revert k. induction l as [|y t IH]; intros k [Hk Hl]; simpl; [done|].
  destruct (pred k y) eqn:E.
  - apply pred_true in E. tauto.
  - f_equal. by apply IH.
Qed.

Lemma unique_fixed l : no_double type2 l -> unique pred l = l.
Proof.
  destruct l as [|x t]; simpl; [done|].
  intros H. f_equal. by apply unique_after_fixed.
Qed.

Lemma no_double_app_l c a b : no_double c (a ++ b) -> no_double c a.
Proof.
  induction a as [|x a IH]; simpl; [done|].
  intros [H1 H2]. split; [|by apply IH].
  destruct a; [done | exact H1].
Qed.

Lemma no_double_snoc_last c l : no_double c (l ++ [c]) -> last l <> Some c.
Proof.
  induction l as [|x l IH]; simpl; [done|].
  intros [H1 H2]. destruct l as [|y l].
  - simpl in *. intros [= ->]. tauto.
  - apply IH, H2.
Qed.

Lemma RemoveTrailingSlash_fixed s :
  (forall c, last s = Some c -> is_slash c = false) ->
  RemoveTrailingSlash s = s.
Proof.
  intros H. unfold RemoveTrailingSlash.
  destruct (last s) as [c|]; [|done]. by rewrite (H c eq_refl).
Qed.

Lemma RemoveTrailingSlash_settles u :
  Forall (fun x => x <> type1) u -> no_double type2 u ->
  settled type1 type2 (RemoveTrailingSlash u).
Proof.
  intros Hu Hd. unfold RemoveTrailingSlash.
  destruct (last u) as [x|] eqn:El.
  - apply last_Some in El as [w ->]. destruct (is_slash x) eqn:Ex.
    + rewrite removelast_last. apply Forall_app in Hu as [Hw Hx].
      assert (x = type2) as ->.
      { destruct (Hslashes x Ex) as [->|]; [|done]. by inversion Hx. }
      split; [done|]. split; [by eapply no_double_app_l|].
      intros c Hc. apply not_slash.
      * apply last_Some in Hc as [w' ->]. apply Forall_app in Hw as [_ Hc].
        by inversion Hc.
      * intros ->. by apply (no_double_snoc_last type2 w).
    + split; [done|]. split; [done|].
      intros c. rewrite last_snoc. by intros [= <-].
  - split; [done|]. split; [done|]. by rewrite El.
Qed.

Lemma sanitize_with_posix_settled s :
  settled type1 type2 s -> sanitize_with Posix type1 type2 s = s.
Proof.
  intros (H1 & H2 & H3). unfold sanitize_with. fold pred.
  rewrite replace_fixed, unique_fixed by done.
  by apply RemoveTrailingSlash_fixed.
Qed.

Lemma sanitize_with_windows_settled s :
  settled type1 type2 s -> sanitize_with Windows type1 type2 s = s.
Proof.
  intros (H1 & H2 & H3). unfold sanitize_with. fold pred.
  rewrite replace_fixed by done. destruct s as [|c rest].
  - reflexivity.
  - rewrite unique_fixed; [by apply RemoveTrailingSlash_fixed|].
    simpl in H2. tauto.
Qed.

Lemma sanitize_with_posix_idempotent path :
  sanitize_with Posix type1 type2 (sanitize_with Posix type1 type2 path)
  = sanitize_with Posix type1 type2 path.
Proof.
  apply sanitize_with_posix_settled. unfold sanitize_with. fold pred.
  apply RemoveTrailingSlash_settles.
  - apply unique_Forall, replace_clean.
  - apply unique_no_double.
Qed.

Lemma unique_after_nil l :
  unique_after pred type2 l = [] -> Forall (fun x => x = type2) l.
Proof.
  induction l as [|y t IH]; simpl; [done|].
  destruct (pred type2 y) eqn:E; [|done].
  apply pred_true in E as [_ ->]. intros H. constructor; [done | by apply IH].
Qed.

Lemma replace_all_type2 s :
  Forall (fun x => x = type2) (replace type1 type2 s) -> all_slashes s.
Proof.
  unfold replace, all_slashes. rewrite Forall_map. intros H.
  eapply Forall_impl; [exact H|].
  intros x. simpl. destruct (Ascii.eqb_spec x type1) as [->|].
  - intros _. destruct (is_slash type1) eqn:E; [done|]. exfalso.
    (* both separator characters are among [type1] and [type2] *)
    assert (Hb : is_slash "\"%char = true) by done.
    assert (Hf : is_slash "/"%char = true) by done.
    destruct (Hslashes _ Hb) as [Eb|Eb], (Hslashes _ Hf) as [Ef|Ef];
      congruence.
  - by intros ->.
Qed.

Lemma sanitize_with_windows_idempotent path :
  ~ ((2 <= length path)%nat /\ all_slashes path) ->
  sanitize_with Windows type1 type2 (sanitize_with Windows type1 type2 path)
  = sanitize_with Windows type1 type2 path.
Proof.
  intros Hpath. unfold sanitize_with at 2 3. fold pred.
  pose proof (replace_clean path) as Hclean.
  assert (Hlen : length (replace type1 type2 path) = length path)
    by apply length_map.
  pose proof (replace_all_type2 path) as Hall.
  destruct (replace type1 type2 path) as [|c0 t]; [reflexivity|].
  apply Forall_cons in Hclean as [Hc0 Ht].
  pose proof (unique_Forall _ _ Ht) as Hv.
  pose proof (unique_no_double t) as Hd.
  assert (Hfix : forall w, Forall (fun x => x <> type1) w -> no_double type2 w ->
                 (forall c, last (c0 :: w) = Some c -> is_slash c = false) ->
                 sanitize_with Windows type1 type2 (c0 :: w) = c0 :: w).
  { intros w Hw Hdw Hlast. unfold sanitize_with. fold pred.
    rewrite replace_fixed by (by constructor).
    rewrite unique_fixed by done. by apply RemoveTrailingSlash_fixed. }
  unfold RemoveTrailingSlash.
  destruct (last (c0 :: unique pred t)) as [x|] eqn:El;
    [|by apply last_None in El].
  destruct (is_slash x) eqn:Ex.
  - destruct (unique pred t) as [|y v'] eqn:Ev.
    + reflexivity.
    + change (removelast (c0 :: y :: v')) with (c0 :: removelast (y :: v')).
      change (last (c0 :: y :: v')) with (last (y :: v')) in El.
      apply last_Some in El as [w Ew]. rewrite Ew in *.
      rewrite removelast_last. apply Forall_app in Hv as [Hw Hx].
      assert (x = type2) as ->.
      { destruct (Hslashes x Ex) as [->|]; [|done]. by inversion Hx. }
      apply Hfix; [done | by eapply no_double_app_l |].
      intros c Hc. destruct w as [|z w'].
      * simpl in Hc. injection Hc as <-.
        apply not_slash; [done|]. intros ->.
        apply Hpath. split.
        -- rewrite <- Hlen. destruct t; [done | simpl; lia].
        -- apply Hall. constructor; [done|].
           destruct t as [|t0 t']; [done|]. simpl in Ev.
           injection Ev as -> Ev. constructor; [done|].
           by apply unique_after_nil.
      * change (last (c0 :: z :: w')) with (last (z :: w')) in Hc.
        apply not_slash.
        -- apply last_Some in Hc as [w'' Hc]. rewrite Hc in Hw.
           apply Forall_app in Hw as [_ Hw]. by inversion Hw.
        -- intros ->. by apply (no_double_snoc_last type2 (z :: w')).
  - apply Hfix; [done | done |]. intros c. rewrite El. by intros [= <-].
Qed.

(** On the Windows build a path made of two or more separators is
    sanitized to a single separator, and that in turn to the empty path. *)
Lemma sanitize_with_windows_all_slashes path :
  (2 <= length path)%nat -> all_slashes path ->
  sanitize_with Windows type1 type2 path = [type2] /\
  sanitize_with Windows type1 type2 [type2] = [].
Proof.
  intros Hlen Hall.
  assert (Hr : Forall (fun x => x = type2) (replace type1 type2 path)).
  { unfold replace. apply Forall_map. eapply Forall_impl; [exact Hall|].
    intros x Hx. simpl. destruct (Ascii.eqb_spec x type1); [done|].
    destruct (Hslashes x Hx); congruence. }
  assert (Hl : length (replace type1 type2 path) = length path)
    by apply length_map.
  assert (Hu : forall l, Forall (fun x => x = type2) l ->
                         unique_after pred type2 l = []).
  { induction 1 as [|y t -> _ IH]; simpl; [done|].
    unfold both_are at 1. by rewrite Ascii.eqb_refl. }
  split.
  - unfold sanitize_with. fold pred.
    destruct (replace type1 type2 path) as [|c0 [|c1 t]];
      [simpl in Hl; lia | simpl in Hl; lia |].
    apply Forall_cons in Hr as [-> Hr]. apply Forall_cons in Hr as [-> Hr].
    simpl. rewrite (Hu t Hr). unfold RemoveTrailingSlash. simpl.
    by rewrite Hslash2.
  - unfold sanitize_with. simpl.
    destruct (Ascii.eqb type2 type1);
      unfold RemoveTrailingSlash; simpl; by rewrite Hslash2.
Qed.

End Sanitize.

(** The two characters [SanitizePath] works with. *)
Lemma SanitizePath_types plat sep :
  exists type1 type2 : ascii,
    ((type1 = "\"%char /\ type2 = "/"%char) \/
     (type1 = "/"%char /\ type2 = "\"%char)) /\
    forall path, SanitizePath plat path sep = sanitize_with plat type1 type2 path.
Proof.
  destruct plat, sep;
    first [ by exists "\"%char, "/"%char; split; [left|]
          | by exists "/"%char, "\"%char; split; [right|] ].
Qed.

Lemma is_slash_cases c : is_slash c = true -> c = "\"%char \/ c = "/"%char.
Proof.
  unfold is_slash. intros H. apply orb_true_iff in H as [H|H];
    apply Ascii.eqb_eq in H; auto.
Qed.

(** C3 (amended): on the POSIX build SanitizePath is idempotent for every
    path and every separator preference.  On the Windows build, where the
    first character is kept out of the collapsing pass, it is idempotent
    for every path that does not consist solely of two or more separator
    characters. *)
Theorem SanitizePath_idempotent
    (plat : Platform) (sep : DirectorySeparator) (path : str) :
  plat = Posix \/ ~ ((2 <= length path)%nat /\ all_slashes path) ->
  SanitizePath plat (SanitizePath plat path sep) sep
  = SanitizePath plat path sep.
Proof.
  intros H. destruct (SanitizePath_types plat sep) as (t1 & t2 & Ht & Heq).
  rewrite !Heq.
  assert (Hdiff : t1 <> t2) by (destruct Ht as [[-> ->]|[-> ->]]; done).
  assert (Hs2 : is_slash t2 = true) by (destruct Ht as [[-> ->]|[-> ->]]; done).
  assert (Hall : forall c, is_slash c = true -> c = t1 \/ c = t2).
  { intros c Hc. apply is_slash_cases in Hc.
    destruct Ht as [[-> ->]|[-> ->]]; tauto. }
  destruct plat.
  - destruct H as [H|H]; [done|].
    by apply sanitize_with_windows_idempotent.
  - by apply sanitize_with_posix_idempotent.
Qed.

Lemma SanitizePath_idempotent_witness :
  SanitizePath Posix (SanitizePath Posix (lit "//a\\b//") ForwardSlash) ForwardSlash
  = SanitizePath Posix (lit "//a\\b//") ForwardSlash /\
  SanitizePath Windows
    (SanitizePath Windows (lit "\\server//share\") PlatformDefault) PlatformDefault
  = SanitizePath Windows (lit "\\server//share\") PlatformDefault.
Proof.
  split.
  - apply (SanitizePath_idempotent Posix ForwardSlash (lit "//a\\b//")).
    left. reflexivity.
  - apply (SanitizePath_idempotent Windows PlatformDefault (lit "\\server//share\")).
    right. intros [_ Hall]. inversion Hall as [|? ? _ Hall1]; subst.
    inversion Hall1 as [|? ? _ Hall2]; subst.
    inversion Hall2 as [|? ? Hs _]; subst. discriminate Hs.
Defined.

(** C3 as stated fails on the Windows build: a path of two backslashes is
    sanitized to one backslash, and sanitizing that gives the empty path. *)
Lemma SanitizePath_windows_not_idempotent :
  SanitizePath Windows (lit "\\") PlatformDefault = lit "\" /\
  SanitizePath Windows (lit "\") PlatformDefault = [] /\
  SanitizePath Windows (SanitizePath Windows (lit "\\") PlatformDefault)
    PlatformDefault
  <> SanitizePath Windows (lit "\\") PlatformDefault.
Proof. split; [reflexivity | split; [reflexivity | discriminate]]. Qed.

(** ** SplitFilename83 *)

Section ShortName.

Lemma rfind_upto_trailing (c : ascii) (stem : str) :
  rfind c (stem ++ [c]) (size stem) = size stem.
Proof.
  unfold rfind. rewrite rfind_from_app. simpl.
  by rewrite Z.leb_refl, Ascii.eqb_refl.
Qed.

(** Whatever the stem, a trailing dot is where the name is split: the
    second search starts on that very dot and finds it again, and the
    extension stays blank. *)
Lemma trailing_dot_split_point (stem : str) :
  size (stem ++ ["."%char]) < npos ->
  rfind "."%char (stem ++ ["."%char]) (rfind "."%char (stem ++ ["."%char]) npos)
  = size stem /\
  SplitFilename83 (stem ++ ["."%char])
  = Some (short_name_loop stem 0 (lit "        " ++ [zero]), lit "   " ++ [zero]).
Proof.
  intros Hsz.
  assert (Hp : rfind "."%char (stem ++ ["."%char]) npos = size stem)
    by (by apply rfind_last_occurrence).
  pose proof (size_nonneg stem) as Hnn.
  assert (Hsz' : size (stem ++ ["."%char]) = size stem + 1)
    by (rewrite size_app; reflexivity).
  split; [rewrite Hp; apply rfind_upto_trailing|].
  unfold SplitFilename83. rewrite Hp, Hsz'.
  replace (wrap (size stem + 1 - 1)) with (size stem)
    by (unfold wrap, npos in *; rewrite Z.mod_small; lia).
  rewrite Z.eqb_refl, rfind_upto_trailing, substr_prefix. simpl.
  destruct (Z.eqb_spec (size stem) npos) as [E|_]; [lia|]. simpl.
  replace (wrap (size stem + 1)) with (size stem + 1)
    by (unfold wrap, npos in *; rewrite Z.mod_small; lia).
  unfold substr. rewrite Hsz', Z.ltb_irrefl, Z.sub_diag. reflexivity.
Qed.

End ShortName.

(** C4: for the file name "a.b." the encoder splits at the trailing dot,
    not at the previous one: the base name is built from "a.b" and the
    extension is blank.  (A split at the previous dot would give the base
    name "A" and the extension "B.".) *)
Theorem SplitFilename83_trailing_dot :
  SplitFilename83 (lit "a.b.")
  = Some (lit "AB      " ++ [zero], lit "   " ++ [zero]).
Proof. reflexivity. Qed.

(** C5 (amended): encoding "LongFileName.txt" yields the base name
    "LONGFI~1", six characters of the name followed by the two-character
    marker, and the extension "TXT". *)
Theorem SplitFilename83_LongFileName :
  SplitFilename83 (lit "LongFileName.txt")
  = Some (lit "LONGFI~1" ++ [zero], lit "TXT" ++ [zero]).
Proof. reflexivity. Qed.

(** C5 as stated fails: the base name does not begin with "LONGFIL"; its
    seventh character is the first character of the marker. *)
Lemma LongFileName_base_name_not_LONGFIL :
  exists short_name extension : str,
    SplitFilename83 (lit "LongFileName.txt") = Some (short_name, extension) /\
    take 7 short_name = lit "LONGFI~" /\
    take 7 short_name <> lit "LONGFIL".
Proof.
  eexists _, _. split; [reflexivity|]. split; [reflexivity | discriminate].
Qed.

(** ** IOFile *)

(** Closing leaves the handle not open when [fclose] succeeds, and a
    handle that is not open cannot be closed. *)
Lemma Close_result {FILE World : Type} {stdio : Stdio FILE World}
    (f : IOFile FILE) (w : World) :
  forall ok f' w', Close f w = (ok, f', w') ->
    (ok = true -> IsOpen f = true /\ IsOpen f' = false) /\
    (IsOpen f = false -> ok = false /\ f' = f /\ w' = w).
Proof.
  intros ok f' w'. unfold Close, IsOpen.
  destruct (m_file f) as [file|] eqn:E.
  - destruct (fclose file w) as [r w1]. destruct (0 =? r); simpl.
    + intros [= <- <- <-]. split; [done | discriminate].
    + intros [= <- <- <-]. split; [discriminate | discriminate].
  - intros [= <- <- <-]. split; [discriminate | done].
Qed.

(** C9 (amended): on a handle that is not open, Tell, ReadImpl and
    WriteImpl return the maximum value of their result type, whereas
    GetSize returns 0; on an open handle a read or write of zero elements
    returns 0 without touching the host. *)
Theorem IOFile_sentinels {FILE World : Type} {stdio : Stdio FILE World}
    (f : IOFile FILE) (w : World) :
  (IsOpen f = false ->
     Tell f w = u64_max /\
     (forall length data_size, ReadImpl f length data_size w = (u64_max, [], w)) /\
     (forall data length data_size,
         WriteImpl f data length data_size w = (u64_max, w)) /\
     GetSize f w = (0, w)) /\
  (IsOpen f = true ->
     (forall data_size, ReadImpl f 0 data_size w = (0, [], w)) /\
     (forall data data_size, WriteImpl f data 0 data_size w = (0, w))).
Proof.
  unfold IsOpen, Tell, ReadImpl, WriteImpl, GetSize.
  destruct (m_file f) as [file|]; split; intros H; try discriminate H.
  - split; reflexivity.
  - repeat split; reflexivity.
Qed.

Lemma IOFile_sentinels_witness :
  Tell (stdio := mem_stdio) IOFile_default (lit "abc", 0) = u64_max /\
  ReadImpl (stdio := mem_stdio) {| m_file := Some tt |} 0 4 (lit "abc", 0)
  = (0, [], (lit "abc", 0)).
Proof.
  split.
  - apply (proj1 (IOFile_sentinels (stdio := mem_stdio) IOFile_default (lit "abc", 0))).
    reflexivity.
  - apply (proj2 (IOFile_sentinels (stdio := mem_stdio) {| m_file := Some tt |}
                    (lit "abc", 0))).
    reflexivity.
Defined.

(** C9 as stated fails for the size query: on a handle that is not open
    GetSize returns 0, not the maximum value. *)
Lemma GetSize_closed_is_zero :
  IsOpen (IOFile_default (FILE := unit)) = false /\
  (GetSize (stdio := mem_stdio) IOFile_default (lit "abc", 0)).1 = 0 /\
  (GetSize (stdio := mem_stdio) IOFile_default (lit "abc", 0)).1 <> u64_max.
Proof. split; [reflexivity | split; [reflexivity | discriminate]]. Qed.

(** ** GetUserPath *)

Section Registry.
Context `{!CommonPaths} `{!Host}.
Implicit Types (m : gmap UserPath str) (path k : UserPath) (new_path : str).

Lemma GetUserPath_split plat path new_path m :
  GetUserPath plat path new_path m
  = (set_up_once plat;; apply_new_path path new_path) m.
Proof.
  unfold GetUserPath, set_up_once, apply_new_path, mbind, Reg_bind.
  destruct (user_path m) as [[u m']|]; reflexivity.
Qed.

Lemma paths_at_nonempty m k :
  paths_at m k <> [] -> exists v, m !! k = Some v /\ v <> [] /\ paths_at m k = v.
Proof.
  unfold paths_at. destruct (m !! k) as [v|]; simpl; [|done]. by exists v.
Qed.

(** Once the user directory has a value the set-up is skipped. *)
Lemma set_up_once_skipped plat m :
  paths_at m UserDir <> [] -> set_up_once plat m = Some (tt, m).
Proof.
  intros (u & Hu & Hne & _)%paths_at_nonempty. reg_unfold. rewrite Hu.
  destruct u; [done | reflexivity].
Qed.

(** [paths[k]] returns the entry and leaves every entry readable as before. *)
Lemma index_reads k m :
  exists m', index k m = Some (paths_at m k, m') /\
             forall j, paths_at m' j = paths_at m j.
Proof.
  unfold index, paths_at. destruct (m !! k) as [v|] eqn:E.
  - by exists m.
  - exists (<[k := []]> m). split; [done|]. intros j.
    destruct (decide (k = j)) as [<-|Hne].
    + by rewrite lookup_insert_eq, E.
    + by rewrite lookup_insert_ne.
Qed.

Lemma apply_new_path_rejected path new_path m :
  new_path <> [] -> fs_is_directory new_path = false ->
  apply_new_path path new_path m = index path m.
Proof.
  intros Hne Hdir. unfold apply_new_path. rewrite Hdir.
  by destruct new_path.
Qed.

Lemma apply_new_path_query path m : apply_new_path path [] m = index path m.
Proof. reflexivity. Qed.

(** A plain query of a set-up table reads the entry. *)
Lemma GetUserPath_query plat k m :
  paths_at m UserDir <> [] ->
  exists m', GetUserPath plat k [] m = Some (paths_at m k, m') /\
             forall j, paths_at m' j = paths_at m j.
Proof.
  intros Hinit. rewrite GetUserPath_split. unfold mbind, Reg_bind.
  rewrite set_up_once_skipped by done. apply index_reads.
Qed.

Lemma config_under_user_index path m :
  config_under_user m ->
  exists v m', index path m = Some (v, m') /\ config_under_user m'.
Proof.
  intros (u & Hu & Hne & Hc). unfold index.
  destruct (m !! path) eqn:E.
  - eexists _, _. split; [done|]. by exists u.
  - eexists _, _. split; [done|]. exists u.
    assert (path <> UserDir) by (intros ->; by rewrite Hu in E).
    assert (path <> ConfigDir) by (intros ->; by rewrite Hc in E).
    by rewrite !lookup_insert_ne.
Qed.

(** Handling [new_path] keeps the configuration directory under the user
    directory, unless the call is an accepted override of the root or of
    the configuration directory itself. *)
Lemma apply_new_path_keeps path new_path m :
  DIR_SEP <> [] -> keeps_config (path, new_path) -> config_under_user m ->
  exists v m',
    apply_new_path path new_path m = Some (v, m') /\ config_under_user m'.
Proof.
  intros Hsep Hk Hm. unfold keeps_config in Hk. simpl in Hk.
  destruct (empty new_path) eqn:En.
  { destruct new_path; [|done]. by apply config_under_user_index. }
  destruct (fs_is_directory new_path) eqn:Ed.
  2:{ rewrite apply_new_path_rejected by (done || by intros ->).
      by apply config_under_user_index. }
  assert (path <> RootDir /\ path <> ConfigDir) as [HnR HnC].
  { split; intros ->; (destruct Hk as [->|?]; [auto | done | congruence]). }
  destruct Hm as (u & Hu & Hne & Hc).
  unfold apply_new_path. rewrite En, Ed. simpl.
  destruct (decide (path = UserDir)) as [->|HnU].
  - reg_unfold.
    destruct (m !! RootDir) eqn:ER; simplify_map_eq;
      eexists _, _; (split; [reflexivity|]);
      eexists; simplify_map_eq; (split; [reflexivity|]);
      (split; [|reflexivity]);
      first [done | intros [_ E]%app_eq_nil; done].
  - assert (Hc' : config_under_user (<[path := new_path]> m)).
    { exists u. by rewrite !lookup_insert_ne. }
    assert (Hcas : cascade path = mret tt) by (by destruct path).
    unfold mbind, Reg_bind, assign. rewrite Hcas. unfold mret, Reg_ret.
    by apply config_under_user_index.
Qed.

(** The set-up of a fresh table on a branch that builds the configuration
    directory from [user_path]. *)
Lemma set_up_once_fresh plat :
  DIR_SEP <> [] -> builds_from_user_path plat ->
  exists m0, set_up_once plat ∅ = Some (tt, m0) /\ config_under_user m0.
Proof.
  intros Hsep Hrel.
  assert (Hnil : forall a b c : str, a ++ b ++ c ++ DIR_SEP <> []).
  { intros a b c E. apply app_eq_nil in E as [_ E].
    apply app_eq_nil in E as [_ E]. by apply app_eq_nil in E as [_ E]. }
  destruct plat.
  - reg_unfold. simplify_map_eq.
    destruct (fs_is_directory _); simpl; simplify_map_eq;
      eexists; (split; [reflexivity|]);
      eexists; simplify_map_eq; (split; [reflexivity|]);
      (split; [apply Hnil | reflexivity]).
  - destruct Hrel as [|Hrel]; [done|].
    reg_unfold. rewrite Hrel. simplify_map_eq.
    eexists; (split; [reflexivity|]).
    eexists; simplify_map_eq; (split; [reflexivity|]).
    split; [apply Hnil | reflexivity].
Qed.

Lemma config_under_user_initialised m :
  config_under_user m -> paths_at m UserDir <> [].
Proof. intros (u & Hu & Hne & _). unfold paths_at. by rewrite Hu. Qed.

Lemma GetUserPath_keeps plat path new_path m :
  DIR_SEP <> [] -> builds_from_user_path plat -> keeps_config (path, new_path) ->
  m = ∅ \/ config_under_user m ->
  exists v m',
    GetUserPath plat path new_path m = Some (v, m') /\ config_under_user m'.
Proof.
  intros Hsep Hrel Hk Hm. rewrite GetUserPath_split. unfold mbind, Reg_bind.
  destruct Hm as [-> | Hm].
  - destruct (set_up_once_fresh plat Hsep Hrel) as (m0 & -> & Hm0).
    by apply apply_new_path_keeps.
  - rewrite set_up_once_skipped by (by apply config_under_user_initialised).
    by apply apply_new_path_keeps.
Qed.

Lemma run_keeps plat calls m :
  DIR_SEP <> [] -> builds_from_user_path plat -> Forall keeps_config calls ->
  m = ∅ \/ config_under_user m ->
  exists m', run plat calls m = Some (tt, m') /\ (m' = ∅ \/ config_under_user m').
Proof.
  intros Hsep Hrel Hcalls. revert m.
  induction Hcalls as [|[path new_path] calls Hc _ IH]; intros m Hm; simpl.
  - by exists m.
  - destruct (GetUserPath_keeps plat path new_path m Hsep Hrel Hc Hm)
      as (v & m1 & E & Hm1).
    unfold mbind, Reg_bind. rewrite E. apply IH. by right.
Qed.

(** An accepted override of the user directory: the value supplied is
    overwritten by the root entry followed by the separator, and the four
    dependent entries are rebuilt from that. *)
Lemma Override_UserDir_accepted plat new_path m :
  paths_at m UserDir <> [] -> new_path <> [] ->
  fs_is_directory new_path = true ->
  exists m',
    GetUserPath plat UserDir new_path m
    = Some (paths_at m RootDir ++ DIR_SEP, m') /\
    paths_at m' UserDir = paths_at m RootDir ++ DIR_SEP /\
    paths_at m' ConfigDir
    = (paths_at m RootDir ++ DIR_SEP) ++ CONFIG_DIR ++ DIR_SEP /\
    paths_at m' CacheDir
    = (paths_at m RootDir ++ DIR_SEP) ++ CACHE_DIR ++ DIR_SEP /\
    paths_at m' SDMCDir
    = (paths_at m RootDir ++ DIR_SEP) ++ SDMC_DIR ++ DIR_SEP /\
    paths_at m' NANDDir
    = (paths_at m RootDir ++ DIR_SEP) ++ NAND_DIR ++ DIR_SEP.
Proof.
  intros Hinit Hne Hdir. rewrite GetUserPath_split. unfold mbind, Reg_bind.
  rewrite set_up_once_skipped by done.
  unfold apply_new_path. rewrite Hdir. destruct new_path; [done|]. simpl.
  unfold paths_at. reg_unfold.
  destruct (m !! RootDir) eqn:ER; simplify_map_eq;
    eexists; (split; [reflexivity|]); by simplify_map_eq.
Qed.

(** An accepted override of a leaf role stores the new path under that
    role and changes nothing else. *)
Lemma Override_leaf_accepted plat path new_path m :
  path <> RootDir -> path <> UserDir ->
  paths_at m UserDir <> [] -> new_path <> [] ->
  fs_is_directory new_path = true ->
  GetUserPath plat path new_path m = Some (new_path, <[path := new_path]> m).
Proof.
  intros HnR HnU Hinit Hne Hdir. rewrite GetUserPath_split.
  unfold mbind, Reg_bind. rewrite set_up_once_skipped by done.
  unfold apply_new_path. rewrite Hdir. destruct new_path as [|c t]; [done|].
  simpl. assert (Hcas : cascade path = mret tt) by (by destruct path).
  unfold mbind, Reg_bind, assign. rewrite Hcas. unfold mret, Reg_ret, index.
  by rewrite lookup_insert_eq.
Qed.

(** The set-up of a fresh table on the XDG branch: the configuration
    directory comes from XDG_CONFIG_HOME, the user directory from
    XDG_DATA_HOME. *)
Lemma GetUserPath_xdg_first_query (data_dir config_dir cache_dir : str) :
  fs_exists (ROOT_DIR ++ DIR_SEP ++ USERDATA_DIR) = false ->
  GetUserDirectory (lit "XDG_DATA_HOME") = Some data_dir ->
  GetUserDirectory (lit "XDG_CONFIG_HOME") = Some config_dir ->
  GetUserDirectory (lit "XDG_CACHE_HOME") = Some cache_dir ->
  value_of (GetUserPath Posix ConfigDir []) ∅
  = Some (config_dir ++ DIR_SEP ++ EMU_DATA_DIR ++ DIR_SEP) /\
  value_of (GetUserPath Posix UserDir []) ∅
  = Some (data_dir ++ DIR_SEP ++ EMU_DATA_DIR ++ DIR_SEP).
Proof.
  intros Hex Hd Hc Hk. unfold value_of, GetUserPath. reg_unfold.
  rewrite Hex, Hd, Hc, Hk. by simplify_map_eq.
Qed.

(** An accepted override of the root moves the user directory and leaves
    the configuration directory where it was. *)
Lemma Override_RootDir_accepted plat new_path m :
  paths_at m UserDir <> [] -> new_path <> [] ->
  fs_is_directory new_path = true ->
  exists m',
    GetUserPath plat RootDir new_path m = Some (new_path, m') /\
    paths_at m' UserDir = new_path ++ DIR_SEP /\
    paths_at m' ConfigDir = paths_at m ConfigDir.
Proof.
  intros Hinit Hne Hdir. rewrite GetUserPath_split. unfold mbind, Reg_bind.
  rewrite set_up_once_skipped by done.
  unfold apply_new_path. rewrite Hdir. destruct new_path; [done|]. simpl.
  unfold paths_at. reg_unfold. simplify_map_eq.
  eexists; (split; [reflexivity|]); by simplify_map_eq.
Qed.

End Registry.


(** C2: on a table that has been set up, an accepted override of the user
    directory with "/data" does not rebuild the dependent entries from
    "/data": the user directory becomes the root entry (empty here)
    followed by the separator, and the configuration, cache, SD-card and
    NAND entries are rebuilt from that. *)
Theorem Override_UserDir_discards_new_path :
  @fs_is_directory xdg_host (lit "/data") = true /\
  value_of (@GetUserPath sample_paths xdg_host Posix UserDir [];;
            @GetUserPath sample_paths xdg_host Posix UserDir (lit "/data")) ∅
  = Some (lit "/") /\
  value_of (@GetUserPath sample_paths xdg_host Posix UserDir [];;
            @GetUserPath sample_paths xdg_host Posix UserDir (lit "/data");;
            @GetUserPath sample_paths xdg_host Posix ConfigDir []) ∅
  = Some (lit "/config/") /\
  value_of (@GetUserPath sample_paths xdg_host Posix UserDir [];;
            @GetUserPath sample_paths xdg_host Posix UserDir (lit "/data");;
            @GetUserPath sample_paths xdg_host Posix CacheDir []) ∅
  = Some (lit "/cache/") /\
  value_of (@GetUserPath sample_paths xdg_host Posix UserDir [];;
            @GetUserPath sample_paths xdg_host Posix UserDir (lit "/data");;
            @GetUserPath sample_paths xdg_host Posix SDMCDir []) ∅
  = Some (lit "/sdmc/") /\
  value_of (@GetUserPath sample_paths xdg_host Posix UserDir [];;
            @GetUserPath sample_paths xdg_host Posix UserDir (lit "/data");;
            @GetUserPath sample_paths xdg_host Posix NANDDir []) ∅
  = Some (lit "/nand/").
Proof. repeat split; by vm_compute. Qed.

(** C8: an override whose non-empty new path is not a directory behaves
    exactly like a plain query of the same role.  On a table that has been
    set up it returns the entry the role already had, and every role
    resolves afterwards to the value it resolved to before the call. *)
Theorem Override_rejected `{!CommonPaths} `{!Host}
    (plat : Platform) (path : UserPath) (new_path : str)
    (m : gmap UserPath str) :
  new_path <> [] -> fs_is_directory new_path = false ->
  GetUserPath plat path new_path m = GetUserPath plat path [] m /\
  (paths_at m UserDir <> [] ->
   exists m' : gmap UserPath str,
     GetUserPath plat path new_path m = Some (paths_at m path, m') /\
     (forall k, paths_at m' k = paths_at m k) /\
     (forall k, value_of (GetUserPath plat k []) m = Some (paths_at m k)) /\
     (forall k, value_of (GetUserPath plat k []) m' = Some (paths_at m k))).
Proof.
  intros Hne Hdir.
  assert (Hsame : GetUserPath plat path new_path m = GetUserPath plat path [] m).
  { rewrite !GetUserPath_split. unfold mbind, Reg_bind.
    destruct (set_up_once plat m) as [[[] m1]|]; [|done].
    by rewrite apply_new_path_rejected. }
  split; [exact Hsame|]. intros Hinit.
  destruct (GetUserPath_query plat path m Hinit) as (m' & Hq & Hread).
  exists m'. split; [by rewrite Hsame|]. split; [exact Hread|]. split.
  - intros k. unfold value_of.
    destruct (GetUserPath_query plat k m Hinit) as (mk & -> & _).
    reflexivity.
  - intros k. unfold value_of.
    assert (Hinit' : paths_at m' UserDir <> []) by (by rewrite Hread).
    destruct (GetUserPath_query plat k m' Hinit') as (mk & -> & _).
    simpl. by rewrite Hread.
Qed.

Lemma Override_rejected_witness :
  exists m' : gmap UserPath str,
    @GetUserPath sample_paths xdg_host Posix LogDir (lit "/none")
      {[ UserDir := lit "/u/"; LogDir := lit "/u/log/" ]}
    = Some (lit "/u/log/", m') /\
    forall k, paths_at m' k
              = paths_at {[ UserDir := lit "/u/"; LogDir := lit "/u/log/" ]} k.
Proof.
  destruct (proj2 (@Override_rejected sample_paths xdg_host Posix LogDir
                     (lit "/none")
                     {[ UserDir := lit "/u/"; LogDir := lit "/u/log/" ]}
                     ltac:(discriminate) ltac:(reflexivity))
                  ltac:(vm_compute; discriminate))
    as (m' & Hcall & Hread & _).
  exists m'. split; [exact Hcall | exact Hread].
Defined.

(** ** The examples of the specification *)

Example GetParentPath_example :
  GetParentPath (lit "/a/b/c") = Some (lit "/a/b").
Proof. reflexivity. Qed.

Example SplitPathComponents_example :
  SplitPathComponents (lit "a\b/c") = [lit "a"; lit "b"; lit "c"].
Proof. reflexivity. Qed.

Example SplitFilename83_example :
  SplitFilename83 (lit "a.b.txt")
  = Some (lit "AB      " ++ [zero], lit "TXT" ++ [zero]).
Proof. reflexivity. Qed.

Example SanitizePath_example :
  SanitizePath Posix (lit "a\\b//c/") ForwardSlash = lit "a/b/c" /\
  SanitizePath Windows (lit "\\server//share\") PlatformDefault
  = lit "\\server\share".
Proof. split; reflexivity. Qed.

(* ================================================================== *)
(** * Further properties of the path helpers *)
(* ================================================================== *)

Section MoreSearch.
Implicit Types (c x : ascii) (s a b : str).

Lemma wrap_small z : 0 <= z < npos -> wrap (z + 1) = z + 1.
Proof. intros H. unfold wrap, npos in *. rewrite Z.mod_small; lia. Qed.

Lemma substr_suffix a b :
  size (a ++ b) < npos -> substr (size a) npos (a ++ b) = Some b.
Proof.
  intros Hsz. unfold substr. rewrite size_app in *.
  pose proof (size_nonneg a). pose proof (size_nonneg b).
  destruct (Z.ltb_spec (size a + size b) (size a)); [lia|].
  rewrite Z.min_r by lia.
  replace (size a + size b - size a) with (size b) by lia.
  unfold size. rewrite !Nat2Z.id, drop_app_length. by rewrite firstn_all.
Qed.

(** The text after position [size a] of [a ++ c :: b]. *)
Lemma substr_after a c b :
  size (a ++ c :: b) < npos ->
  substr (wrap (size a + 1)) npos (a ++ c :: b) = Some b.
Proof.
  intros Hsz. pose proof (size_nonneg a).
  assert (size a < npos).
  { rewrite size_app in Hsz. pose proof (size_nonneg (c :: b)). lia. }
  rewrite wrap_small by lia.
  replace (size a + 1) with (size (a ++ [c]))
    by (rewrite size_app; reflexivity).
  replace (a ++ c :: b) with ((a ++ [c]) ++ b) in * by (by rewrite <- app_assoc).
  by apply substr_suffix.
Qed.

Lemma find_last_of_from_app chars a b i found :
  find_last_of_from chars (a ++ b) i found
  = find_last_of_from chars b (i + size a) (find_last_of_from chars a i found).
Proof.
  revert i found. induction a as [|x a IH]; intros i found; simpl.
  - f_equal. unfold size. simpl. lia.
  - rewrite IH. f_equal. unfold size. simpl length. lia.
Qed.

Lemma find_last_of_from_absent chars s i found :
  Forall (fun x => existsb (Ascii.eqb x) chars = false) s ->
  find_last_of_from chars s i found = found.
Proof.
  intros H. revert i found.
  induction H as [|x t Hx _ IH]; intros i found; simpl; [done|].
  rewrite Hx. apply IH.
Qed.

Lemma no_slash_not_in_set s :
  no_slash s ->
  Forall (fun x => existsb (Ascii.eqb x) ["\"%char; "/"%char] = false) s.
Proof.
  intros H. eapply Forall_impl; [exact H|]. intros x Hx. simpl.
  unfold is_slash in Hx. by rewrite orb_false_r.
Qed.

Lemma find_from_app_absent c a b i :
  Forall (fun x => Ascii.eqb x c = false) a ->
  find_from c (a ++ b) i = find_from c b (i + size a).
Proof.
  intros H. revert i. induction H as [|x t Hx _ IH]; intros i; simpl.
  - f_equal. unfold size. simpl. lia.
  - rewrite Hx, IH. f_equal. unfold size. simpl length. lia.
Qed.

Lemma find_from_range c s i :
  find_from c s i = npos \/ i <= find_from c s i < i + size s.
Proof.
  revert i. induction s as [|x s IH]; intros i; simpl; [by left|].
  pose proof (size_nonneg s).
  replace (size (x :: s)) with (1 + size s) by (unfold size; simpl length; lia).
  destruct (Ascii.eqb x c); [right; lia|].
  destruct (IH (i + 1)) as [-> | ?]; [by left | right; lia].
Qed.

(** Every path with a separator splits at its last one. *)
Lemma last_slash_split s :
  ~ no_slash s ->
  exists a c b, s = a ++ c :: b /\ is_slash c = true /\ no_slash b.
Proof.
  induction s as [|x s IH]; intros Hs.
  - destruct Hs. constructor.
  - destruct (decide (no_slash s)) as [Hns | Hns].
    + exists [], x, s. split; [done|]. split; [|done].
      destruct (is_slash x) eqn:E; [done|]. destruct Hs. by constructor.
    + destruct (IH Hns) as (a & c & b & -> & Hc & Hb).
      by exists (x :: a), c, b.
Qed.

End MoreSearch.

(** ** GetFilename and GetExtensionFromFilename *)

Lemma GetFilename_no_separator (path : str) :
  no_slash path -> GetFilename path = Some [].
Proof.
  intros H. unfold GetFilename, find_last_of.
  rewrite find_last_of_from_absent by (by apply no_slash_not_in_set).
  by rewrite Z.eqb_refl.
Qed.

Lemma GetFilename_at_last_separator (a b : str) (c : ascii) :
  size (a ++ c :: b) < npos -> is_slash c = true -> no_slash b ->
  GetFilename (a ++ c :: b) = Some b.
Proof.
  intros Hsz Hc Hb. unfold GetFilename, find_last_of.
  rewrite find_last_of_from_app. cbn [find_last_of_from].
  assert (Hin : existsb (Ascii.eqb c) ["\"%char; "/"%char] = true).
  { simpl. unfold is_slash in Hc. by rewrite orb_false_r. }
  rewrite Hin.
  rewrite find_last_of_from_absent by (by apply no_slash_not_in_set).
  pose proof (size_nonneg a).
  assert (size a < npos).
  { rewrite size_app in Hsz. pose proof (size_nonneg (c :: b)). lia. }
  destruct (Z.eqb_spec (0 + size a) npos); [lia|].
  rewrite Z.add_0_l. by apply substr_after.
Qed.

(** GetFilename returns the text after the right-most separator of either
    kind, and the empty string when the path has no separator at all. *)
Theorem GetFilename_spec (path : str) :
  size path < npos ->
  (no_slash path -> GetFilename path = Some []) /\
  (forall (a b : str) (c : ascii),
      path = a ++ c :: b -> is_slash c = true -> no_slash b ->
      GetFilename path = Some b).
Proof.
  intros Hsz. split.
  - apply GetFilename_no_separator.
  - intros a b c -> Hc Hb. by apply GetFilename_at_last_separator.
Qed.

Lemma GetFilename_spec_witness :
  GetFilename (lit "c.txt") = Some [] /\
  GetFilename (lit "/a\b/c.txt") = Some (lit "c.txt").
Proof.
  split.
  - apply (GetFilename_spec (lit "c.txt")); [small_size | repeat constructor].
  - apply (proj2 (GetFilename_spec (lit "/a\b/c.txt") ltac:(small_size))
             (lit "/a\b") (lit "c.txt") "/"%char);
      [reflexivity | reflexivity | repeat constructor].
Defined.

(** A path that contains a separator is its parent path, then the
    separator, then its file name; the file name contains no separator. *)
Theorem parent_and_filename_recompose (path : str) :
  size path < npos -> ~ no_slash path ->
  exists (parent name : str) (c : ascii),
    GetParentPath path = Some parent /\ GetFilename path = Some name /\
    is_slash c = true /\ no_slash name /\ path = parent ++ c :: name.
Proof.
  intros Hsz Hs. destruct (last_slash_split path Hs) as (a & c & b & -> & Hc & Hb).
  exists a, b, c. split; [by apply GetParentPath_at_last_separator|].
  split; [by apply GetFilename_at_last_separator | done].
Qed.

Lemma parent_and_filename_recompose_witness :
  exists (parent name : str) (c : ascii),
    GetParentPath (lit "dir\sub/file") = Some parent /\
    GetFilename (lit "dir\sub/file") = Some name /\
    is_slash c = true /\ no_slash name /\
    lit "dir\sub/file" = parent ++ c :: name.
Proof.
  apply (parent_and_filename_recompose (lit "dir\sub/file")); [small_size|].
  intros H. inversion H as [|? ? _ H1]; subst. inversion H1 as [|? ? _ H2]; subst.
  inversion H2 as [|? ? _ H3]; subst. inversion H3 as [|? ? E _]; subst.
  discriminate E.
Defined.

(** GetExtensionFromFilename returns the text after the last dot, which
    itself contains no dot, and the empty string when the name has no
    dot. *)
Theorem GetExtensionFromFilename_spec (name : str) :
  size name < npos ->
  (no_dot name -> GetExtensionFromFilename name = Some []) /\
  (forall a e : str,
      name = a ++ "."%char :: e -> no_dot e ->
      GetExtensionFromFilename name = Some e).
Proof.
  intros Hsz. unfold GetExtensionFromFilename. split.
  - intros H. unfold rfind. rewrite rfind_from_absent by done.
    by rewrite Z.eqb_refl.
  - intros a e -> He. rewrite rfind_last_occurrence by done.
    pose proof (size_nonneg a).
    assert (size a < npos).
    { rewrite size_app in Hsz. pose proof (size_nonneg ("."%char :: e)). lia. }
    destruct (Z.eqb_spec (size a) npos); [lia|]. by apply substr_after.
Qed.

Lemma GetExtensionFromFilename_spec_witness :
  GetExtensionFromFilename (lit "noext") = Some [] /\
  GetExtensionFromFilename (lit "a.tar.gz") = Some (lit "gz").
Proof.
  split.
  - apply (GetExtensionFromFilename_spec (lit "noext"));
      [small_size | repeat constructor].
  - apply (proj2 (GetExtensionFromFilename_spec (lit "a.tar.gz") ltac:(small_size))
             (lit "a.tar") (lit "gz")); [reflexivity | repeat constructor].
Defined.

(** ** GetPathWithoutTop, the general case *)

(** After its leading separators a path that still contains a separator
    loses its first component together with the separator that ends it. *)
Theorem GetPathWithoutTop_drops_first_component
    (seps comp rest : str) (c : ascii) :
  size (comp ++ c :: rest) < npos ->
  Forall (fun x => is_slash x = true) seps ->
  comp <> [] -> no_slash comp -> is_slash c = true ->
  GetPathWithoutTop (seps ++ comp ++ c :: rest) = Some rest.
Proof.
  intros Hsz Hseps Hne Hcomp Hc.
  induction Hseps as [|s seps Hs _ IH]; simpl.
  - unfold GetPathWithoutTop. destruct comp as [|x t]; [done|].
    simpl empty. cbv iota.
    assert (Hx : is_slash x = false) by (by inversion Hcomp).
    change ((x :: t) ++ c :: rest) with (x :: (t ++ c :: rest)).
    simpl remove_prefix_loop. rewrite Hx.
    change (x :: (t ++ c :: rest)) with ((x :: t) ++ c :: rest).
    set (comp := x :: t) in *.
    pose proof (size_nonneg comp) as Hnn.
    assert (Hlt : size comp < npos).
    { rewrite size_app in Hsz. pose proof (size_nonneg (c :: rest)). lia. }
    assert (Hmin : Z.min (find "\"%char (comp ++ c :: rest))
                         (find "/"%char (comp ++ c :: rest)) = size comp).
    { unfold find.
      rewrite !find_from_app_absent by (by apply no_slash_absent).
      rewrite !Z.add_0_l. simpl.
      destruct (is_slash_cases c Hc) as [-> | ->]; simpl.
      - destruct (find_from_range "/"%char rest (size comp + 1)) as [-> | ?]; lia.
      - destruct (find_from_range "\"%char rest (size comp + 1)) as [-> | ?]; lia. }
    rewrite Hmin. by apply substr_after.
  - rewrite GetPathWithoutTop_skip_separator; [exact IH | done |].
    destruct seps; [by destruct comp | done].
Qed.

Lemma GetPathWithoutTop_drops_first_component_witness :
  GetPathWithoutTop (lit "/\top/mid\leaf") = Some (lit "mid\leaf").
Proof.
  apply (GetPathWithoutTop_drops_first_component
           (lit "/\") (lit "top") (lit "mid\leaf") "/"%char);
    [small_size | repeat constructor | discriminate | repeat constructor
    | reflexivity].
Defined.

(** ** SanitizePath: what the result looks like *)

Section SanitizeMore.
Variables type1 type2 : ascii.
Hypothesis Hdiff : type1 <> type2.
Hypothesis Hslash1 : is_slash type1 = true.
Hypothesis Hslash2 : is_slash type2 = true.
Hypothesis Hslashes : forall c, is_slash c = true -> c = type1 \/ c = type2.

Lemma sanitize_with_posix_normal path :
  settled type1 type2 (sanitize_with Posix type1 type2 path).
Proof.
  unfold sanitize_with. fold (both_are type2).
  apply RemoveTrailingSlash_settles; [done | |].
  - by apply unique_Forall, replace_clean.
  - apply unique_no_double.
Qed.

Lemma sanitize_with_windows_normal path :
  Forall (fun x => x <> type1) (sanitize_with Windows type1 type2 path) /\
  no_double type2 (tail (sanitize_with Windows type1 type2 path)) /\
  forall c, last (sanitize_with Windows type1 type2 path) = Some c ->
            is_slash c = true ->
            sanitize_with Windows type1 type2 path = [type2].
Proof.
  unfold sanitize_with. fold (both_are type2).
  pose proof (replace_clean type1 type2 Hdiff path) as Hclean.
  destruct (replace type1 type2 path) as [|c0 t]; [by repeat split|].
  apply Forall_cons in Hclean as [Hc0 Ht].
  pose proof (unique_Forall type2 _ _ Ht) as Hv.
  pose proof (unique_no_double type2 t) as Hd.
  unfold RemoveTrailingSlash.
  destruct (last (c0 :: unique (both_are type2) t)) as [x|] eqn:El;
    [|by apply last_None in El].
  destruct (is_slash x) eqn:Ex.
  - destruct (unique (both_are type2) t) as [|y v'] eqn:Ev; [by repeat split|].
    change (removelast (c0 :: y :: v')) with (c0 :: removelast (y :: v')).
    change (last (c0 :: y :: v')) with (last (y :: v')) in El.
    apply last_Some in El as [w Ew]. rewrite Ew in *.
    rewrite removelast_last. apply Forall_app in Hv as [Hw Hx].
    assert (x = type2) as ->.
    { destruct (Hslashes x Ex) as [->|]; [|done]. by inversion Hx. }
    split; [by constructor|]. split; [by eapply no_double_app_l|].
    intros c Hc Hsl. destruct w as [|z w'].
    + simpl in Hc. injection Hc as <-.
      destruct (Hslashes c0 Hsl) as [-> | ->]; done.
    + change (last (c0 :: z :: w')) with (last (z :: w')) in Hc.
      exfalso. assert (is_slash c = false); [|congruence].
      apply (not_slash type1 type2 Hslashes).
      * apply last_Some in Hc as [w'' Hc]. rewrite Hc in Hw.
        apply Forall_app in Hw as [_ Hw]. by inversion Hw.
      * intros ->. by apply (no_double_snoc_last type2 (z :: w')).
  - split; [by constructor|]. split; [done|].
    intros c. rewrite El. intros [= <-]. congruence.
Qed.

Lemma non_separators_replace s :
  non_separators (replace type1 type2 s) = non_separators s.
Proof.
  unfold non_separators, replace. induction s as [|x s IH]; simpl; [done|].
  rewrite IH. destruct (Ascii.eqb_spec x type1) as [->|]; [|done].
  by rewrite Hslash1, Hslash2.
Qed.

Lemma non_separators_unique_after k l :
  non_separators (unique_after (both_are type2) k l) = non_separators l.
Proof.
  unfold non_separators. revert k.
  induction l as [|y t IH]; intros k; simpl; [done|].
  destruct (both_are type2 k y) eqn:E.
  - apply pred_true in E as [_ ->]. rewrite Hslash2. simpl. apply IH.
  - simpl. by rewrite IH.
Qed.

Lemma non_separators_unique l :
  non_separators (unique (both_are type2) l) = non_separators l.
Proof.
  destruct l as [|x t]; [done|]. unfold unique.
  unfold non_separators. simpl. fold (non_separators t).
  fold (non_separators (unique_after (both_are type2) x t)).
  by rewrite non_separators_unique_after.
Qed.

Lemma non_separators_RemoveTrailingSlash s :
  non_separators (RemoveTrailingSlash s) = non_separators s.
Proof.
  unfold RemoveTrailingSlash. destruct (last s) as [x|] eqn:El; [|done].
  destruct (is_slash x) eqn:Ex; [|done].
  apply last_Some in El as [w ->]. rewrite removelast_last.
  unfold non_separators. rewrite List.filter_app. simpl. rewrite Ex. simpl.
  by rewrite app_nil_r.
Qed.

Lemma non_separators_sanitize_with plat path :
  non_separators (sanitize_with plat type1 type2 path) = non_separators path.
Proof.
  unfold sanitize_with. fold (both_are type2).
  rewrite non_separators_RemoveTrailingSlash.
  rewrite <- (non_separators_replace path).
  destruct plat; [|apply non_separators_unique].
  destruct (replace type1 type2 path) as [|c rest]; [done|].
  unfold non_separators. simpl. fold (non_separators rest).
  fold (non_separators (unique (both_are type2) rest)).
  by rewrite non_separators_unique.
Qed.

End SanitizeMore.

Lemma SanitizePath_separators plat sep :
  let type1 := other_separator plat sep in
  let type2 := target_separator plat sep in
  type1 <> type2 /\ is_slash type1 = true /\ is_slash type2 = true /\
  (forall c, is_slash c = true -> c = type1 \/ c = type2) /\
  forall path, SanitizePath plat path sep = sanitize_with plat type1 type2 path.
Proof.
  destruct plat, sep; simpl; (split; [done|]); (split; [done|]);
    (split; [done|]); (split; [|done]);
    intros c Hc; apply is_slash_cases in Hc; tauto.
Qed.

(** The result of SanitizePath contains no separator of the other kind and
    no doubled target separator (on Windows: none after the first
    character), and it does not end in a separator, except that on Windows
    it may be the target separator alone. *)
Theorem SanitizePath_normal_form
    (plat : Platform) (sep : DirectorySeparator) (path : str) :
  let r := SanitizePath plat path sep in
  Forall (fun c => c <> other_separator plat sep) r /\
  no_double (target_separator plat sep)
    (match plat with Windows => tail r | Posix => r end) /\
  (forall c, last r = Some c -> is_slash c = true ->
             plat = Windows /\ r = [target_separator plat sep]).
Proof.
  destruct (SanitizePath_separators plat sep) as (Hd & H1 & H2 & Hall & Heq).
  simpl. rewrite Heq. destruct plat.
  - destruct (sanitize_with_windows_normal _ _ Hd Hall path) as (Ha & Hb & Hc).
    split; [done|]. split; [done|]. intros c Hl Hs. split; [done|]. eauto.
  - destruct (sanitize_with_posix_normal _ _ Hd Hall path) as (Ha & Hb & Hc).
    split; [done|]. split; [done|]. intros c Hl Hs.
    rewrite (Hc c Hl) in Hs. discriminate Hs.
Qed.

Lemma SanitizePath_normal_form_witness :
  SanitizePath Windows (lit "/\") PlatformDefault = ["\"%char].
Proof.
  apply (proj2 (proj2 (SanitizePath_normal_form Windows PlatformDefault (lit "/\")))
               "\"%char); reflexivity.
Defined.

(** SanitizePath changes separators only: the other characters of the
    path come out unchanged and in the same order. *)
Theorem SanitizePath_keeps_other_characters
    (plat : Platform) (sep : DirectorySeparator) (path : str) :
  non_separators (SanitizePath plat path sep) = non_separators path.
Proof.
  destruct (SanitizePath_separators plat sep) as (Hd & H1 & H2 & Hall & Heq).
  rewrite Heq. by apply non_separators_sanitize_with.
Qed.

(** A path already in normal form (no separator of the other kind, no
    doubled target separator, no separator at the end) is returned
    unchanged; on the POSIX build these are the only paths SanitizePath
    returns unchanged. *)
Theorem SanitizePath_fixed_points
    (plat : Platform) (sep : DirectorySeparator) (path : str) :
  (settled (other_separator plat sep) (target_separator plat sep) path ->
   SanitizePath plat path sep = path) /\
  (plat = Posix -> SanitizePath plat path sep = path ->
   settled (other_separator plat sep) (target_separator plat sep) path).
Proof.
  destruct (SanitizePath_separators plat sep) as (Hd & H1 & H2 & Hall & Heq).
  rewrite Heq. split.
  - intros Hs. destruct plat.
    + by apply sanitize_with_windows_settled.
    + by apply sanitize_with_posix_settled.
  - intros -> E. rewrite <- E. by apply sanitize_with_posix_normal.
Qed.

Lemma SanitizePath_fixed_points_witness :
  SanitizePath Windows (lit "C:\dir\file") PlatformDefault = lit "C:\dir\file" /\
  settled "\"%char "/"%char (lit "a/b").
Proof.
  split.
  - apply (proj1 (SanitizePath_fixed_points Windows PlatformDefault
                    (lit "C:\dir\file"))).
    split; [by repeat constructor|].
    split; [simpl; repeat split; intros [? ?]; discriminate|].
    intros c [= <-]. reflexivity.
  - apply (proj2 (SanitizePath_fixed_points Posix ForwardSlash (lit "a/b")));
      reflexivity.
Defined.

(** ** SplitPathComponents: the components put back together *)

Section SplitMore.
Implicit Types (s : str) (d : ascii).

Lemma join_with_cons d (x : str) (l : list str) :
  l <> [] -> join_with d (x :: l) = x ++ d :: join_with d l.
Proof. by destruct l. Qed.

Lemma join_split d s : join_with d (split_keep_empty d s) = s.
Proof.
  induction s as [|x t IH]; simpl; [done|].
  pose proof (split_keep_empty_nonempty d t) as Hne.
  destruct (Ascii.eqb_spec x d) as [->|Hx].
  - rewrite join_with_cons by done. by rewrite IH.
  - destruct (split_keep_empty d t) as [|h r]; [done|].
    destruct r as [|h' r'].
    + simpl in *. by rewrite IH.
    + rewrite join_with_cons in IH by done.
      rewrite join_with_cons by done. simpl. by rewrite <- IH.
Qed.

Lemma split_pieces_clean d (P : ascii -> Prop) s :
  Forall P s ->
  Forall (Forall (fun c => c <> d /\ P c)) (split_keep_empty d s).
Proof.
  induction 1 as [|x t Hx _ IH]; simpl; [by repeat constructor|].
  destruct (Ascii.eqb_spec x d) as [->|Hne].
  - by constructor.
  - destruct (split_keep_empty d t) as [|h r]; [by repeat constructor|].
    apply Forall_cons in IH as [Hh Hr]. by repeat constructor.
Qed.

Lemma drop_empty_last_Forall (P : str -> Prop) (l : list str) :
  Forall P l -> Forall P (drop_empty_last l).
Proof.
  intros H. unfold drop_empty_last. destruct (last l) as [[|]|] eqn:E; try done.
  apply last_Some in E as [l' ->]. rewrite removelast_last.
  by apply Forall_app in H as [H _].
Qed.

End SplitMore.

(** No component returned by SplitPathComponents contains a separator, and
    joining the components with '/' gives back the path with its
    backslashes turned into forward slashes and one trailing separator
    removed. *)
Theorem SplitPathComponents_rejoin (path : str) :
  Forall no_slash (SplitPathComponents path) /\
  join_with "/"%char (SplitPathComponents path)
  = RemoveTrailingSlash (replace "\"%char "/"%char path).
Proof.
  unfold SplitPathComponents. rewrite getline_loop_spec, app_nil_l.
  set (s := replace "\"%char "/"%char path).
  assert (Hclean : Forall (fun x => x <> "\"%char) s)
    by (by apply replace_clean).
  split.
  - apply drop_empty_last_Forall.
    eapply Forall_impl; [apply (split_pieces_clean "/"%char _ s Hclean)|].
    intros comp Hcomp. eapply Forall_impl; [exact Hcomp|].
    intros c [Hc1 Hc2]. simpl in *. unfold is_slash.
    destruct (Ascii.eqb_spec c "\"%char), (Ascii.eqb_spec c "/"%char); done.
  - clearbody s. destruct s as [|x0 s0] using rev_ind; [reflexivity|].
    clear IHs0. apply Forall_app in Hclean as [_ Hx]. inversion Hx as [|? ? Hx0 _]; subst.
    destruct (Ascii.eqb_spec x0 "/"%char) as [->|Hne].
    + rewrite split_keep_empty_snoc, drop_empty_last_snoc, join_split.
      unfold RemoveTrailingSlash. rewrite last_snoc. simpl.
      by rewrite removelast_last.
    + assert (Hx' : Ascii.eqb x0 "/"%char = false)
        by (by apply Ascii.eqb_neq).
      pose proof (join_split "/"%char (s0 ++ [x0])) as Hjoin.
      destruct (split_keep_empty_snoc_other "/"%char s0 x0 Hx') as (l & h & E).
      rewrite E in Hjoin |- *.
      unfold drop_empty_last. rewrite last_snoc.
      destruct (h ++ [x0]) as [|? ?] eqn:Eh; [by destruct h|].
      rewrite Hjoin. unfold RemoveTrailingSlash. rewrite last_snoc.
      unfold is_slash.
      destruct (Ascii.eqb_spec x0 "\"%char), (Ascii.eqb_spec x0 "/"%char); done.
Qed.

(** ** SplitFilename83: the general behaviour *)

Section ShortNameMore.
Implicit Types (letters pre stem ext filename : str).

(** Writing slot [length pre] of an array that starts with [pre]. *)
Lemma insert_after_prefix pre (x y : ascii) (tl : str) :
  <[length pre := x]> (pre ++ y :: tl) = pre ++ x :: tl.
Proof.
  replace (length pre) with (length pre + 0)%nat by lia.
  by rewrite insert_app_r.
Qed.

Lemma short_name_loop_spec letters pre :
  (length pre <= 8)%nat ->
  short_name_loop letters (Z.of_nat (length pre))
    (pre ++ replicate (8 - length pre) " "%char ++ [zero])
  = (if (length (pre ++ accepted letters) <=? 8)%nat
     then (pre ++ accepted letters)
            ++ replicate (8 - length (pre ++ accepted letters)) " "%char
     else take 6 (pre ++ accepted letters) ++ ["~"%char; "1"%char]) ++ [zero].
Proof.
  revert pre. induction letters as [|letter rest IH]; intros pre Hpre.
  - unfold accepted. simpl. rewrite app_nil_r.
    destruct (Nat.leb_spec (length pre) 8); [|lia]. by rewrite <- app_assoc.
  - simpl short_name_loop. unfold accepted. simpl List.filter.
    destruct (find letter forbidden_characters =? npos) eqn:Ef; simpl negb.
    2:{ apply IH, Hpre. }
    cbv iota. simpl map. fold (accepted rest).
    destruct (Z.eqb_spec (Z.of_nat (length pre)) 8) as [E8|E8].
    + assert (Hlen : length pre = 8%nat) by lia.
      rewrite length_app. simpl length.
      destruct (Nat.leb_spec (length pre + S (length (accepted rest))) 8); [lia|].
      rewrite take_app_le by lia.
      destruct pre as [|c1 [|c2 [|c3 [|c4 [|c5 [|c6 [|c7 [|c8 [|c9 pre]]]]]]]]];
        simpl in Hlen; try lia.
      reflexivity.
    + assert (Hlt : (length pre < 8)%nat) by lia.
      rewrite Nat2Z.id.
      replace (8 - length pre)%nat with (S (8 - length (pre ++ [toupper letter])))
        by (rewrite length_app; simpl; lia).
      simpl replicate. rewrite <- app_comm_cons, insert_after_prefix.
      replace (Z.of_nat (length pre) + 1)
        with (Z.of_nat (length (pre ++ [toupper letter])))
        by (rewrite length_app; simpl; lia).
      replace (pre ++ toupper letter
                 :: replicate (8 - length (pre ++ [toupper letter])) " "%char
                 ++ [zero])
        with ((pre ++ [toupper letter])
                ++ replicate (8 - length (pre ++ [toupper letter])) " "%char
                ++ [zero])
        by (by rewrite <- app_assoc).
      rewrite IH by (rewrite length_app; simpl; lia).
      by rewrite <- app_assoc.
Qed.

Lemma short_name_loop_initial stem :
  short_name_loop stem 0 (lit "        " ++ [zero]) = short_name_of stem.
Proof. apply (short_name_loop_spec stem []). simpl. lia. Qed.

Lemma extension_loop_spec letters pre :
  (length pre + length letters <= 3)%nat ->
  extension_loop letters (Z.of_nat (length pre))
    (pre ++ replicate (3 - length pre) " "%char ++ [zero])
  = pre ++ map toupper letters
      ++ replicate (3 - length pre - length letters) " "%char ++ [zero].
Proof.
  revert pre. induction letters as [|letter rest IH]; intros pre Hlen; simpl.
  - by rewrite Nat.sub_0_r.
  - simpl in Hlen. rewrite Nat2Z.id.
    replace (3 - length pre)%nat with (S (3 - length (pre ++ [toupper letter])))
      by (rewrite length_app; simpl; lia).
    simpl replicate. rewrite <- app_comm_cons, insert_after_prefix.
    replace (Z.of_nat (length pre) + 1)
      with (Z.of_nat (length (pre ++ [toupper letter])))
      by (rewrite length_app; simpl; lia).
    replace (pre ++ toupper letter
               :: replicate (3 - length (pre ++ [toupper letter])) " "%char
               ++ [zero])
      with ((pre ++ [toupper letter])
              ++ replicate (3 - length (pre ++ [toupper letter])) " "%char
              ++ [zero])
      by (by rewrite <- app_assoc).
    rewrite IH by (rewrite length_app; simpl; lia).
    rewrite <- app_assoc. simpl.
    repeat f_equal; rewrite ?length_app; simpl; lia.
Qed.

Lemma extension_loop_initial ext :
  (length ext <= 3)%nat ->
  extension_loop ext 0 (lit "   " ++ [zero])
  = map toupper ext ++ replicate (3 - length ext) " "%char ++ [zero].
Proof. intros H. by apply (extension_loop_spec ext []). Qed.

Lemma substr_take3 a ext :
  size (a ++ ext) < npos ->
  substr (size a) 3 (a ++ ext) = Some (take 3 ext).
Proof.
  intros Hsz. unfold substr. rewrite size_app in *.
  pose proof (size_nonneg a). pose proof (size_nonneg ext).
  destruct (Z.ltb_spec (size a + size ext) (size a)); [lia|].
  replace (size a + size ext - size a) with (size ext) by lia.
  replace (Z.to_nat (size a)) with (length a) by (unfold size; lia).
  rewrite drop_app_length. f_equal.
  unfold size. destruct (Z.min_spec 3 (Z.of_nat (length ext))) as [[? ->]|[? ->]].
  - reflexivity.
  - rewrite Nat2Z.id. rewrite !take_ge by lia. reflexivity.
Qed.

Lemma rfind_upto_split c a b :
  rfind c (a ++ c :: b) (size a) = size a.
Proof.
  unfold rfind. rewrite rfind_from_app. simpl.
  rewrite Z.leb_refl, Ascii.eqb_refl. simpl.
  assert (H : forall l i, size a < i -> rfind_from c (size a) l i (size a) = size a).
  { induction l as [|x l IH]; intros i Hi; simpl; [done|].
    destruct (Z.leb_spec i (size a)); [lia|]. simpl. apply IH. lia. }
  apply H. lia.
Qed.

Lemma SplitFilename83_no_dot filename :
  size filename < npos -> no_dot filename ->
  SplitFilename83 filename = Some (short_name_of filename, extension_of []).
Proof.
  intros Hsz Hnd. unfold SplitFilename83.
  assert (Hp : forall pos, rfind "."%char filename pos = npos)
    by (intros pos; unfold rfind; by rewrite rfind_from_absent).
  rewrite !Hp.
  replace (if npos =? wrap (size filename - 1) then npos else npos)
    with npos by (by destruct (npos =? wrap (size filename - 1))).
  rewrite (substr_whole filename npos) by lia. simpl.
  by rewrite short_name_loop_initial.
Qed.

Lemma SplitFilename83_stem_ext stem ext :
  size (stem ++ "."%char :: ext) < npos -> no_dot ext ->
  SplitFilename83 (stem ++ "."%char :: ext)
  = Some (short_name_of stem, extension_of ext).
Proof.
  intros Hsz Hnd. unfold SplitFilename83.
  rewrite rfind_last_occurrence by done.
  pose proof (size_nonneg stem).
  assert (Hlt : size stem < npos).
  { rewrite size_app in Hsz. pose proof (size_nonneg ("."%char :: ext)). lia. }
  replace (if size stem =? wrap (size (stem ++ "."%char :: ext) - 1)
           then rfind "."%char (stem ++ "."%char :: ext) (size stem)
           else size stem)
    with (size stem)
    by (destruct (size stem =? _); [by rewrite rfind_upto_split | done]).
  rewrite substr_prefix. simpl.
  destruct (Z.eqb_spec (size stem) npos); [lia|]. simpl.
  rewrite wrap_small by lia.
  replace (size stem + 1) with (size (stem ++ ["."%char]))
    by (rewrite size_app; reflexivity).
  replace (stem ++ "."%char :: ext) with ((stem ++ ["."%char]) ++ ext) in *
    by (by rewrite <- app_assoc).
  rewrite substr_take3 by done. simpl.
  rewrite short_name_loop_initial, extension_loop_initial
    by (rewrite length_take; lia).
  reflexivity.
Qed.

(** Every name with a dot splits at its last one. *)
Lemma last_dot_split filename :
  ~ no_dot filename ->
  exists stem ext, filename = stem ++ "."%char :: ext /\ no_dot ext.
Proof.
  induction filename as [|x s IH]; intros Hs.
  - destruct Hs. constructor.
  - destruct (decide (no_dot s)) as [Hns | Hns].
    + exists [], s. split; [|done].
      destruct (Ascii.eqb_spec x "."%char) as [->|Hne]; [done|].
      destruct Hs. constructor; [by apply Ascii.eqb_neq | done].
    + destruct (IH Hns) as (a & b & -> & Hb). by exists (x :: a), b.
Qed.

Lemma toupper_not_forbidden c :
  (find c forbidden_characters =? npos) = true ->
  find (toupper c) forbidden_characters = npos.
Proof.
  destruct c as [[] [] [] [] [] [] [] []]; vm_compute; intros H;
    first [reflexivity | discriminate H].
Qed.

Lemma accepted_not_forbidden letters :
  Forall (fun c => find c forbidden_characters = npos) (accepted letters).
Proof.
  unfold accepted. induction letters as [|x t IH]; simpl; [constructor|].
  destruct (find x forbidden_characters =? npos) eqn:E; [|done].
  simpl. constructor; [by apply toupper_not_forbidden | done].
Qed.

Lemma short_name_of_shape stem :
  length (short_name_of stem) = 9%nat /\
  last (short_name_of stem) = Some zero /\
  Forall (fun c => c = " "%char \/ find c forbidden_characters = npos)
    (take 8 (short_name_of stem)).
Proof.
  unfold short_name_of. pose proof (accepted_not_forbidden stem) as Hacc.
  set (acc := accepted stem) in *.
  assert (Hok : Forall (fun c => c = " "%char \/ find c forbidden_characters = npos) acc)
    by (eapply Forall_impl; [exact Hacc | by right]).
  destruct (Nat.leb_spec (length acc) 8) as [Hle|Hgt].
  - split; [rewrite !length_app, length_replicate; simpl; lia|].
    split; [by rewrite last_snoc|].
    rewrite take_app_length' by (rewrite length_app, length_replicate; lia).
    apply Forall_app. split; [done|].
    apply Forall_replicate. by left.
  - split; [rewrite !length_app, length_take_le by lia; simpl; lia|].
    split; [by rewrite last_snoc|].
    rewrite take_app_length'
      by (rewrite length_app, length_take_le by lia; simpl; lia).
    apply Forall_app. split; [by apply Forall_take|].
    repeat constructor; by right.
Qed.

Lemma extension_of_shape ext :
  length (extension_of ext) = 4%nat /\ last (extension_of ext) = Some zero.
Proof.
  unfold extension_of. split.
  - rewrite !length_app, length_map, length_replicate, length_take.
    change (length [zero]) with 1%nat. lia.
  - by rewrite !app_assoc, last_snoc.
Qed.

End ShortNameMore.

(** SplitFilename83 on any file name: the name is split at its last dot
    (nowhere when it has none).  The short name is made of the characters
    before the split that are not forbidden, uppercased: padded with
    spaces to eight, or cut to six and followed by the marker when there
    are more than eight.  The extension is made of the first three
    characters after the split, uppercased and not filtered, padded with
    spaces to three. *)
Theorem SplitFilename83_spec (filename : str) :
  size filename < npos ->
  (no_dot filename ->
   SplitFilename83 filename = Some (short_name_of filename, extension_of [])) /\
  (forall stem ext : str,
      filename = stem ++ "."%char :: ext -> no_dot ext ->
      SplitFilename83 filename = Some (short_name_of stem, extension_of ext)).
Proof.
  intros Hsz. split.
  - by apply SplitFilename83_no_dot.
  - intros stem ext -> Hext. by apply SplitFilename83_stem_ext.
Qed.

Lemma SplitFilename83_spec_witness :
  SplitFilename83 (lit "read me")
  = Some (short_name_of (lit "read me"), extension_of []) /\
  SplitFilename83 (lit "a.b.c[1]=x")
  = Some (short_name_of (lit "a.b"), extension_of (lit "c[1]=x")).
Proof.
  split.
  - apply (proj1 (SplitFilename83_spec (lit "read me") ltac:(small_size))).
    repeat constructor.
  - apply (proj2 (SplitFilename83_spec (lit "a.b.c[1]=x") ltac:(small_size))
             (lit "a.b") (lit "c[1]=x")); [reflexivity | repeat constructor].
Defined.

(** SplitFilename83 never fails.  Its short name always has nine
    characters and its extension four, each ending in the terminator, and
    none of the eight characters of the short name is forbidden, except
    for the spaces used as padding. *)
Theorem SplitFilename83_shape (filename : str) :
  size filename < npos ->
  exists short_name extension : str,
    SplitFilename83 filename = Some (short_name, extension) /\
    length short_name = 9%nat /\ last short_name = Some zero /\
    length extension = 4%nat /\ last extension = Some zero /\
    Forall (fun c => c = " "%char \/ find c forbidden_characters = npos)
      (take 8 short_name).
Proof.
  intros Hsz. destruct (decide (no_dot filename)) as [Hnd | Hd].
  - eexists _, _. split; [by apply SplitFilename83_no_dot|].
    destruct (short_name_of_shape filename) as (? & ? & ?).
    destruct (extension_of_shape []) as (? & ?). done.
  - destruct (last_dot_split filename Hd) as (stem & ext & -> & Hext).
    eexists _, _. split; [by apply SplitFilename83_stem_ext|].
    destruct (short_name_of_shape stem) as (? & ? & ?).
    destruct (extension_of_shape ext) as (? & ?). done.
Qed.

Lemma SplitFilename83_shape_witness :
  exists short_name extension : str,
    SplitFilename83 (lit "My [draft].final.docx") = Some (short_name, extension) /\
    length short_name = 9%nat /\ last short_name = Some zero /\
    length extension = 4%nat /\ last extension = Some zero /\
    Forall (fun c => c = " "%char \/ find c forbidden_characters = npos)
      (take 8 short_name).
Proof.
  apply (SplitFilename83_shape (lit "My [draft].final.docx")). small_size.
Defined.

(* ================================================================== *)
(** * Further properties of IOFile *)
(* ================================================================== *)

Section IOFileFacts.
Context {FILE World : Type} {stdio : Stdio FILE World}
        {files : StdioFiles FILE World}.
Implicit Types (f : IOFile FILE) (w : World).

Lemma to_u64_range z : 0 <= to_u64 z < 2 ^ 64.
Proof. unfold to_u64. apply Z.mod_pos_bound. lia. Qed.

Lemma to_u64_to_s64 z : 0 <= z < 2 ^ 64 -> to_u64 (to_s64 z) = z.
Proof.
  intros Hz. unfold to_u64, to_s64.
  destruct (Z.lt_ge_cases z (2 ^ 63)).
  - rewrite (Z.mod_small (z + 2 ^ 63)) by lia.
    replace (z + 2 ^ 63 - 2 ^ 63) with z by lia. apply Z.mod_small. lia.
  - replace (z + 2 ^ 63) with (z - 2 ^ 63 + 1 * 2 ^ 64) by lia.
    rewrite Z.mod_add by lia. rewrite (Z.mod_small (z - 2 ^ 63)) by lia.
    replace (z - 2 ^ 63 - 2 ^ 63) with (z + (-1) * 2 ^ 64) by lia.
    rewrite Z.mod_add by lia. apply Z.mod_small. lia.
Qed.

End IOFileFacts.

(** The size query on an open stream: when the seek to the end fails the
    result is 0; otherwise the result is 0 or the position of the end; and
    provided a successful [fseeko] to an absolute offset leaves [ftello]
    at that offset, a non-zero result means the stream is back at the
    position it had before the call. *)
Theorem GetSize_FILE_keeps_position {FILE World : Type}
    {stdio : Stdio FILE World} (file : FILE) (w : World) :
  (forall off w0 w1, fseeko file off SEEK_SET w0 = (0, w1) ->
                     ftello file w1 = off) ->
  forall size w', GetSize_FILE file w = (size, w') ->
    ((fseeko file 0 SEEK_END w).1 <> 0 -> size = 0) /\
    (size = 0 \/ size = to_u64 (ftello file (fseeko file 0 SEEK_END w).2)) /\
    (size <> 0 -> to_u64 (ftello file w') = to_u64 (ftello file w)).
Proof.
  intros Hlaw size w'. unfold GetSize_FILE.
  destruct (fseeko file 0 SEEK_END w) as [r w1] eqn:E1. simpl.
  destruct (Z.eqb_spec r 0) as [-> | Hr]; simpl.
  2:{ intros [= <- <-]. split; [done|]. split; [by left | done]. }
  destruct (Z.eqb_spec (to_u64 (ftello file w1)) (to_u64 (ftello file w)))
    as [Esame | Hdiff]; simpl.
  - intros [= <- <-]. split; [done|]. split; [by right | done].
  - destruct (fseeko file (to_s64 (to_u64 (ftello file w))) SEEK_SET w1)
      as [r2 w2] eqn:E2.
    destruct (Z.eqb_spec r2 0) as [-> | Hr2]; simpl.
    + intros [= <- <-]. split; [done|]. split; [by right|]. intros _.
      rewrite (Hlaw _ _ _ E2). apply to_u64_to_s64, to_u64_range.
    + intros [= <- <-]. split; [done|]. split; [by left | done].
Qed.

Lemma GetSize_FILE_keeps_position_witness :
  GetSize_FILE (stdio := mem_stdio) tt (lit "abcdef", 2)
  = (6, (lit "abcdef", 2)) /\
  to_u64 (ftello (Stdio := mem_stdio) tt (lit "abcdef", 2))
  = to_u64 (ftello (Stdio := mem_stdio) tt (lit "abcdef", 2)).
Proof.
  split; [reflexivity|].
  apply (proj2 (proj2
    (GetSize_FILE_keeps_position (stdio := mem_stdio) tt (lit "abcdef", 2)
       ltac:(intros off w0 w1; simpl; destruct (off <? 0);
             intros [= <-]; reflexivity)
       6 (lit "abcdef", 2) eq_refl))).
  discriminate.
Defined.

(** On a handle that is not open, Seek, Flush, Resize and Close return
    false and GetSize returns 0, and none of them reaches the host: the
    host state and the handle are unchanged. *)
Theorem IOFile_not_open_untouched {FILE World : Type}
    {stdio : Stdio FILE World} {files : StdioFiles FILE World}
    (f : IOFile FILE) (w : World) :
  IsOpen f = false ->
  (forall off origin, Seek f off origin w = (false, w)) /\
  Flush f w = (false, w) /\
  (forall size, Resize f size w = (false, w)) /\
  Close f w = (false, f, w) /\
  GetSize f w = (0, w) /\
  (forall length data_size, (ReadImpl f length data_size w).2 = w) /\
  (forall data length data_size, (WriteImpl f data length data_size w).2 = w).
Proof.
  unfold IsOpen, Seek, Flush, Resize, Close, GetSize, ReadImpl, WriteImpl.
  destruct (m_file f); [discriminate|]. by repeat split.
Qed.

Lemma IOFile_not_open_untouched_witness :
  Flush (files := mem_files) IOFile_default (lit "abc", 1)
  = (false, (lit "abc", 1)).
Proof.
  apply (IOFile_not_open_untouched (stdio := mem_stdio) (files := mem_files)
           IOFile_default (lit "abc", 1)).
  reflexivity.
Defined.

(** Close succeeds exactly when the handle holds a stream and [fclose]
    returns 0.  It then leaves the handle not open, so that closing again
    fails without reaching the host.  When it fails the handle keeps
    whatever it held, also a stream whose [fclose] failed. *)
Theorem Close_outcome {FILE World : Type} {stdio : Stdio FILE World}
    (f : IOFile FILE) (w : World) :
  forall ok f' w', Close f w = (ok, f', w') ->
    (ok = true <-> exists file, m_file f = Some file /\ (fclose file w).1 = 0) /\
    (ok = true -> IsOpen f' = false /\ Close f' w' = (false, f', w')) /\
    (ok = false -> f' = f).
Proof.
  intros ok f' w'. unfold Close at 1, IsOpen.
  destruct (m_file f) as [file|] eqn:E.
  - destruct (fclose file w) as [r w1] eqn:Ec.
    destruct (Z.eqb_spec 0 r) as [<- | Hr]; simpl; intros [= <- <- <-].
    + split; [split; [|done]; intros _; exists file; by rewrite Ec|].
      split; [done | discriminate].
    + split; [|split; [discriminate | done]].
      split; [discriminate|]. intros (file' & [= <-] & Hz).
      rewrite Ec in Hz. simpl in Hz. congruence.
  - intros [= <- <- <-]. split; [|split; [discriminate | done]].
    split; [discriminate|]. by intros (file & ? & _).
Qed.

Lemma Close_outcome_witness :
  IsOpen {| m_file := @None unit |} = false /\
  Close (stdio := mem_stdio) {| m_file := None |} (lit "abc", 1)
  = (false, {| m_file := None |}, (lit "abc", 1)).
Proof.
  apply (proj1 (proj2
    (Close_outcome (stdio := mem_stdio) {| m_file := Some tt |} (lit "abc", 1)
       true {| m_file := None |} (lit "abc", 1) eq_refl))).
  reflexivity.
Defined.

(** Open returns true exactly when the handle is open afterwards, on the
    POSIX build and on the Windows build with non-zero flags; with zero
    flags on Windows this holds when [_wfopen_s] returns 0 exactly when it
    stores a non-null stream. *)
Theorem Open_result_is_IsOpen {FILE World : Type}
    {stdio : Stdio FILE World} {files : StdioFiles FILE World}
    (plat : Platform) (f : IOFile FILE) (filename openmode : str)
    (flags : Z) (w : World) :
  plat = Posix \/ flags <> 0 \/
  (forall old w0 r file w1,
      wfopen_s old filename openmode w0 = (r, file, w1) ->
      (r = 0 <-> is_Some file)) ->
  forall ok f' w', Open plat f filename openmode flags w = (ok, f', w') ->
    IsOpen f' = ok.
Proof.
  intros Hcase ok f' w'. unfold Open, IsOpen.
  destruct (Close f w) as [[c f1] w1].
  destruct plat.
  - destruct (Z.eqb_spec flags 0) as [-> | Hf]; simpl.
    + destruct Hcase as [? | [? | Hlaw]]; [done | done |].
      destruct (wfopen_s (m_file f1) filename openmode w1) as [[r file] w2] eqn:E.
      intros [= <- <- <-]. simpl. specialize (Hlaw _ _ _ _ _ E).
      destruct file as [x|]; destruct (Z.eqb_spec r 0) as [-> | Hr]; try done.
      * destruct Hr. apply Hlaw. by eexists.
      * destruct (proj1 Hlaw eq_refl) as [x Hx]. discriminate Hx.
    + destruct (wfsopen filename openmode flags w1) as [file w2].
      intros [= <- <- <-]. by destruct file.
  - destruct (fopen filename openmode w1) as [file w2].
    intros [= <- <- <-]. by destruct file.
Qed.

Lemma Open_result_is_IsOpen_witness :
  Open (stdio := mem_stdio) (files := mem_files) Posix
    {| m_file := Some tt |} (lit "save.bin") (lit "rb") 0 (lit "abc", 2)
  = (true, {| m_file := Some tt |}, (lit "abc", 0)) /\
  IsOpen {| m_file := Some tt |} = true.
Proof.
  split; [reflexivity|].
  apply (Open_result_is_IsOpen (stdio := mem_stdio) (files := mem_files) Posix
           {| m_file := Some tt |} (lit "save.bin") (lit "rb") 0 (lit "abc", 2)
           ltac:(left; reflexivity)
           true {| m_file := Some tt |} (lit "abc", 0) eq_refl).
Defined.

(* ================================================================== *)
(** * Further properties of the user paths *)
(* ================================================================== *)

Section RegistryMore.
Context `{!CommonPaths} `{!Host}.
Implicit Types (m : gmap UserPath str) (path k : UserPath) (new_path : str).

Lemma keeps_user_keeps_set_up {A} (c : Reg A) : keeps_user c -> keeps_set_up c.
Proof. intros Hc m x m' E Hm. by rewrite (Hc _ _ _ E). Qed.

Lemma sets_up_keeps_set_up {A} (c : Reg A) : sets_up c -> keeps_set_up c.
Proof. intros Hc m x m' E _. by eapply Hc. Qed.

Lemma keeps_user_bind {A B} (c : Reg A) (k : A -> Reg B) :
  keeps_user c -> (forall x, keeps_user (k x)) -> keeps_user (c ≫= k).
Proof.
  intros Hc Hk m y m'. unfold mbind, Reg_bind.
  destruct (c m) as [[x m1]|] eqn:E; [|done]. intros E'.
  rewrite (Hk _ _ _ _ E'). by eapply Hc.
Qed.

Lemma keeps_set_up_bind {A B} (c : Reg A) (k : A -> Reg B) :
  keeps_set_up c -> (forall x, keeps_set_up (k x)) -> keeps_set_up (c ≫= k).
Proof.
  intros Hc Hk m y m'. unfold mbind, Reg_bind.
  destruct (c m) as [[x m1]|] eqn:E; [|done]. intros E' Hm.
  eapply Hk; [exact E'|]. by eapply Hc.
Qed.

Lemma sets_up_bind {A B} (c : Reg A) (k : A -> Reg B) :
  sets_up c -> (forall x, keeps_set_up (k x)) -> sets_up (c ≫= k).
Proof.
  intros Hc Hk m y m'. unfold mbind, Reg_bind.
  destruct (c m) as [[x m1]|] eqn:E; [|done]. intros E'.
  eapply Hk; [exact E'|]. by eapply Hc.
Qed.

Lemma sets_up_bind_r {A B} (c : Reg A) (k : A -> Reg B) :
  (forall x, sets_up (k x)) -> sets_up (c ≫= k).
Proof.
  intros Hk m y m'. unfold mbind, Reg_bind.
  destruct (c m) as [[x m1]|] eqn:E; [|done]. intros E'. by eapply Hk.
Qed.

Lemma keeps_user_ret {A} (x : A) : keeps_user (mret x).
Proof. by intros m y m' [= <- <-]. Qed.

Lemma keeps_user_index k : keeps_user (index k).
Proof.
  intros m x m' E. destruct (index_reads k m) as (m1 & E1 & Hread).
  rewrite E1 in E. injection E as <- <-. apply Hread.
Qed.

Lemma keeps_user_emplace k v : k <> UserDir -> keeps_user (emplace k v).
Proof.
  intros Hk m x m'. unfold emplace, paths_at.
  destruct (m !! k); intros [= <- <-]; [done|]. by rewrite lookup_insert_ne.
Qed.

Lemma keeps_user_assign k v : k <> UserDir -> keeps_user (assign k v).
Proof.
  intros Hk m x m'. unfold assign, paths_at. intros [= <- <-].
  by rewrite lookup_insert_ne.
Qed.

Lemma sets_up_assign v : v <> [] -> sets_up (assign UserDir v).
Proof.
  intros Hv m x m'. unfold assign, paths_at. intros [= <- <-].
  by rewrite lookup_insert_eq.
Qed.

Lemma keeps_user_lift {A} (o : option A) : keeps_user (lift o).
Proof. intros m x m'. unfold lift. destruct o; [|done]. by intros [= <- <-]. Qed.

Lemma ends_in_DIR_SEP (a b c : str) : DIR_SEP <> [] -> a ++ b ++ c ++ DIR_SEP <> [].
Proof.
  intros Hsep E. apply app_eq_nil in E as [_ E].
  apply app_eq_nil in E as [_ E]. by apply app_eq_nil in E as [_ E].
Qed.

Lemma keeps_user_emplace_common : keeps_user emplace_common.
Proof.
  unfold emplace_common, user_path.
  repeat (apply keeps_user_bind;
          [first [apply keeps_user_index | by apply keeps_user_emplace]
          | intros ?]);
    first [apply keeps_user_index | by apply keeps_user_emplace].
Qed.

Lemma sets_up_set_up_paths plat : DIR_SEP <> [] -> sets_up (set_up_paths plat).
Proof.
  intros Hsep. unfold set_up_paths. apply sets_up_bind;
    [|intros ?; apply keeps_user_keeps_set_up, keeps_user_emplace_common].
  assert (Htail : forall A (c : Reg A), keeps_user c -> keeps_set_up c)
    by (intros; by apply keeps_user_keeps_set_up).
  destruct plat.
  - apply sets_up_bind; [by apply sets_up_assign, ends_in_DIR_SEP|]. intros _.
    apply keeps_set_up_bind; [apply Htail, keeps_user_index|]. intros u.
    apply keeps_set_up_bind.
    { destruct (negb (fs_is_directory u)).
      - by apply sets_up_keeps_set_up, sets_up_assign, ends_in_DIR_SEP.
      - apply Htail, keeps_user_ret. }
    intros _. apply Htail. unfold user_path.
    repeat (apply keeps_user_bind;
            [first [apply keeps_user_index | by apply keeps_user_emplace]
            | intros ?]);
      first [apply keeps_user_index | by apply keeps_user_emplace].
  - destruct (fs_exists _).
    + apply sets_up_bind;
        [by apply sets_up_assign, (ends_in_DIR_SEP ROOT_DIR DIR_SEP USERDATA_DIR)|].
      intros _. apply Htail. unfold user_path.
      repeat (apply keeps_user_bind;
              [first [apply keeps_user_index | by apply keeps_user_emplace]
              | intros ?]);
        first [apply keeps_user_index | by apply keeps_user_emplace].
    + do 3 (apply sets_up_bind_r; intros ?).
      apply sets_up_bind; [by apply sets_up_assign, ends_in_DIR_SEP|].
      intros _. apply Htail.
      apply keeps_user_bind; [by apply keeps_user_emplace | intros ?].
      by apply keeps_user_emplace.
Qed.

Lemma sets_up_set_up_once plat : DIR_SEP <> [] -> sets_up (set_up_once plat).
Proof.
  intros Hsep m x m'. unfold set_up_once, user_path, mbind, Reg_bind.
  destruct (index_reads UserDir m) as (m1 & -> & Hread).
  destruct (paths_at m UserDir) as [|c u] eqn:Eu; simpl.
  - by apply sets_up_set_up_paths.
  - intros [= <- <-]. rewrite Hread, Eu. done.
Qed.

Lemma keeps_set_up_cascade path : DIR_SEP <> [] -> keeps_set_up (cascade path).
Proof.
  intros Hsep.
  assert (Hroot : forall root : str, root ++ DIR_SEP <> [])
    by (intros root [_ E]%app_eq_nil; done).
  destruct path; try apply keeps_user_keeps_set_up, keeps_user_ret.
  - unfold cascade. apply keeps_set_up_bind;
      [apply keeps_user_keeps_set_up, keeps_user_index|].
    intros root. by apply sets_up_keeps_set_up, sets_up_assign.
  - unfold cascade, user_path. apply keeps_set_up_bind;
      [apply keeps_user_keeps_set_up, keeps_user_index|].
    intros root. apply keeps_set_up_bind;
      [by apply sets_up_keeps_set_up, sets_up_assign|].
    intros _. apply keeps_user_keeps_set_up.
    repeat (apply keeps_user_bind;
            [first [apply keeps_user_index | by apply keeps_user_assign]
            | intros ?]);
      first [apply keeps_user_index | by apply keeps_user_assign].
Qed.

Lemma keeps_set_up_apply_new_path path new_path :
  DIR_SEP <> [] -> keeps_set_up (apply_new_path path new_path).
Proof.
  intros Hsep. unfold apply_new_path.
  destruct (empty new_path) eqn:En; simpl;
    [apply keeps_user_keeps_set_up, keeps_user_index|].
  destruct (fs_is_directory new_path); simpl;
    [|apply keeps_user_keeps_set_up, keeps_user_index].
  apply keeps_set_up_bind.
  { destruct (decide (path = UserDir)) as [->|Hne].
    - apply sets_up_keeps_set_up, sets_up_assign. by intros ->.
    - by apply keeps_user_keeps_set_up, keeps_user_assign. }
  intros _. apply keeps_set_up_bind; [by apply keeps_set_up_cascade|].
  intros _. apply keeps_user_keeps_set_up, keeps_user_index.
Qed.

Lemma sets_up_GetUserPath plat path new_path m v m' :
  DIR_SEP <> [] -> GetUserPath plat path new_path m = Some (v, m') ->
  paths_at m' UserDir <> [].
Proof.
  intros Hsep. rewrite GetUserPath_split.
  apply (sets_up_bind (set_up_once plat) (fun _ => apply_new_path path new_path)).
  - by apply sets_up_set_up_once.
  - intros _. by apply keeps_set_up_apply_new_path.
Qed.

End RegistryMore.

(** Once a call to GetUserPath has returned, the user directory entry is
    not empty (the separator macro being non-empty), so the set-up is
    never run again: every later plain query returns the stored entry and
    leaves every entry as it is. *)
Theorem GetUserPath_set_up_once `{!CommonPaths} `{!Host}
    (plat : Platform) (path : UserPath) (new_path : str)
    (m : gmap UserPath str) (v : str) (m' : gmap UserPath str) :
  DIR_SEP <> [] -> GetUserPath plat path new_path m = Some (v, m') ->
  paths_at m' UserDir <> [] /\
  forall k, exists m'' : gmap UserPath str,
    GetUserPath plat k [] m' = Some (paths_at m' k, m'') /\
    forall j, paths_at m'' j = paths_at m' j.
Proof.
  intros Hsep Hcall.
  pose proof (sets_up_GetUserPath plat path new_path m v m' Hsep Hcall) as Hinit.
  split; [done|]. intros k. by apply GetUserPath_query.
Qed.

Lemma GetUserPath_set_up_once_witness :
  exists m' : gmap UserPath str,
    @GetUserPath sample_paths xdg_host Posix LogDir (lit "/data") ∅
    = Some (lit "/data", m') /\
    paths_at m' UserDir <> [].
Proof.
  eexists. split; [by vm_compute|].
  eapply (@GetUserPath_set_up_once sample_paths xdg_host Posix LogDir
            (lit "/data") ∅); [discriminate | by vm_compute].
Defined.

Section RegistryFacts.
Context `{!CommonPaths} `{!Host}.
Implicit Types (m : gmap UserPath str) (path k : UserPath) (new_path : str).

Lemma GetUserDirectory_result envvar d :
  GetUserDirectory envvar = Some d -> exists rest, d = "/"%char :: rest.
Proof.
  unfold GetUserDirectory, mbind, option_bind, ASSERT_MSG.
  destruct (match getenv envvar with Some _ => _ | None => _ end) as [user_dir|];
    [|done].
  destruct user_dir as [|c rest]; simpl; [done|].
  destruct (Ascii.eqb_spec c "/"%char) as [->|]; [|done].
  intros [= <-]. by eexists.
Qed.

(** The set-up of an empty table, on whichever branch it takes. *)
Lemma set_up_once_fresh_entries plat m0 :
  set_up_once plat ∅ = Some (tt, m0) ->
  let u := paths_at m0 UserDir in
  paths_at m0 SDMCDir = u ++ SDMC_DIR ++ DIR_SEP /\
  paths_at m0 NANDDir = u ++ NAND_DIR ++ DIR_SEP /\
  paths_at m0 LoadDir = u ++ LOAD_DIR ++ DIR_SEP /\
  paths_at m0 DumpDir = u ++ DUMP_DIR ++ DIR_SEP /\
  paths_at m0 ScreenshotsDir = u ++ SCREENSHOTS_DIR ++ DIR_SEP /\
  paths_at m0 ShaderDir = u ++ SHADER_DIR ++ DIR_SEP /\
  paths_at m0 SysDataDir = u ++ SYSDATA_DIR ++ DIR_SEP /\
  paths_at m0 KeysDir = u ++ KEYS_DIR ++ DIR_SEP /\
  paths_at m0 LogDir = u ++ LOG_DIR ++ DIR_SEP /\
  paths_at m0 RootDir = [].
Proof.
  unfold paths_at. destruct plat.
  - reg_unfold. simplify_map_eq.
    destruct (fs_is_directory _); simpl; simplify_map_eq;
      intros [= <-]; by simplify_map_eq.
  - reg_unfold. simplify_map_eq.
    destruct (fs_exists _); simpl; simplify_map_eq.
    + intros [= <-]. by simplify_map_eq.
    + repeat (match goal with
              | |- context [GetUserDirectory ?e] => destruct (GetUserDirectory e)
              end; simpl; [|done]).
      simplify_map_eq. intros [= <-]. by simplify_map_eq.
Qed.

End RegistryFacts.

(** GetUserDirectory never returns an empty or a relative path.  A value
    found in the environment is returned as it is when it starts with '/'
    and aborts the process otherwise; a variable that is not set and is
    not one of the three XDG names aborts as well. *)
Theorem GetUserDirectory_absolute `{!CommonPaths} `{!Host} (envvar : str) :
  (forall d, GetUserDirectory envvar = Some d ->
             exists rest, d = "/"%char :: rest) /\
  (forall rest, getenv envvar = Some ("/"%char :: rest) ->
                GetUserDirectory envvar = Some ("/"%char :: rest)) /\
  (forall d, getenv envvar = Some d -> head d <> Some "/"%char ->
             GetUserDirectory envvar = None) /\
  (getenv envvar = None ->
   envvar <> lit "XDG_DATA_HOME" -> envvar <> lit "XDG_CONFIG_HOME" ->
   envvar <> lit "XDG_CACHE_HOME" ->
   GetUserDirectory envvar = None).
Proof.
  split; [intros d; apply GetUserDirectory_result|].
  unfold GetUserDirectory, str_eqb. split; [|split].
  - intros rest ->. reflexivity.
  - intros d -> Hd. destruct d as [|c rest]; [done|]. simpl.
    destruct (Ascii.eqb_spec c "/"%char) as [->|]; [by destruct Hd | done].
  - intros -> H1 H2 H3.
    rewrite !bool_decide_eq_false_2 by done. reflexivity.
Qed.

Lemma GetUserDirectory_absolute_witness :
  @GetUserDirectory sample_paths xdg_host (lit "XDG_STATE_HOME") = None /\
  exists rest,
    lit "/home/u/.config" = "/"%char :: rest.
Proof.
  split.
  - apply (proj2 (proj2 (proj2
      (@GetUserDirectory_absolute sample_paths xdg_host (lit "XDG_STATE_HOME")))));
      [reflexivity | discriminate | discriminate | discriminate].
  - apply (proj1 (@GetUserDirectory_absolute sample_paths xdg_host
                    (lit "XDG_CONFIG_HOME"))).
    reflexivity.
Defined.

(** The first call on an empty table, whichever branch the set-up takes:
    when it returns, the SD-card, NAND, load, dump, screenshots, shader,
    system-data, keys and log entries are each the user directory entry
    followed by the role's directory name and the separator, and the root
    entry is empty. *)
Theorem first_call_derives_roles `{!CommonPaths} `{!Host}
    (plat : Platform) (path : UserPath)
    (v : str) (m' : gmap UserPath str) :
  GetUserPath plat path [] ∅ = Some (v, m') ->
  let u := paths_at m' UserDir in
  paths_at m' SDMCDir = u ++ SDMC_DIR ++ DIR_SEP /\
  paths_at m' NANDDir = u ++ NAND_DIR ++ DIR_SEP /\
  paths_at m' LoadDir = u ++ LOAD_DIR ++ DIR_SEP /\
  paths_at m' DumpDir = u ++ DUMP_DIR ++ DIR_SEP /\
  paths_at m' ScreenshotsDir = u ++ SCREENSHOTS_DIR ++ DIR_SEP /\
  paths_at m' ShaderDir = u ++ SHADER_DIR ++ DIR_SEP /\
  paths_at m' SysDataDir = u ++ SYSDATA_DIR ++ DIR_SEP /\
  paths_at m' KeysDir = u ++ KEYS_DIR ++ DIR_SEP /\
  paths_at m' LogDir = u ++ LOG_DIR ++ DIR_SEP /\
  paths_at m' RootDir = [].
Proof.
  rewrite GetUserPath_split. unfold mbind, Reg_bind.
  destruct (set_up_once plat ∅) as [[[] m0]|] eqn:E0; [|done].
  rewrite apply_new_path_query.
  destruct (index_reads path m0) as (m1 & -> & Hread). intros [= <- <-].
  simpl. rewrite !Hread. by apply (set_up_once_fresh_entries plat).
Qed.

Lemma first_call_derives_roles_witness :
  paths_at
    (match @GetUserPath sample_paths xdg_host Posix KeysDir [] ∅ with
     | Some (_, m') => m'
     | None => ∅
     end) KeysDir
  = lit "/home/u/.local/share/yuzu/keys/".
Proof.
  destruct (@GetUserPath sample_paths xdg_host Posix KeysDir [] ∅)
    as [[v m']|] eqn:E; [|by vm_compute in E].
  destruct (@first_call_derives_roles sample_paths xdg_host Posix KeysDir v m' E)
    as (_ & _ & _ & _ & _ & _ & _ & -> & _).
  assert (Hu : paths_at m' UserDir = lit "/home/u/.local/share/yuzu/").
  { vm_compute in E. injection E as _ <-. by vm_compute. }
  rewrite Hu. reflexivity.
Defined.

(** An accepted override of a leaf role (any role but the root and the
    user directory) on a set-up table returns the new path; afterwards
    the role resolves to the new path and every other role to what it
    resolved to before. *)
Theorem Override_leaf_round_trip `{!CommonPaths} `{!Host}
    (plat : Platform) (path : UserPath) (new_path : str)
    (m : gmap UserPath str) :
  path <> RootDir -> path <> UserDir ->
  paths_at m UserDir <> [] -> new_path <> [] ->
  fs_is_directory new_path = true ->
  exists m' : gmap UserPath str,
    GetUserPath plat path new_path m = Some (new_path, m') /\
    value_of (GetUserPath plat path []) m' = Some new_path /\
    forall k, k <> path ->
      value_of (GetUserPath plat k []) m' = Some (paths_at m k) /\
      value_of (GetUserPath plat k []) m = Some (paths_at m k).
Proof.
  intros HnR HnU Hinit Hne Hdir. exists (<[path := new_path]> m).
  split; [by apply Override_leaf_accepted|].
  assert (Hinit' : paths_at (<[path := new_path]> m) UserDir <> []).
  { unfold paths_at in *. by rewrite lookup_insert_ne. }
  unfold value_of. split.
  - destruct (GetUserPath_query plat path _ Hinit') as (m2 & -> & _).
    simpl. unfold paths_at. by rewrite lookup_insert_eq.
  - intros k Hk. split.
    + destruct (GetUserPath_query plat k _ Hinit') as (m2 & -> & _).
      simpl. unfold paths_at. by rewrite lookup_insert_ne.
    + by destruct (GetUserPath_query plat k m Hinit) as (m2 & -> & _).
Qed.

Lemma Override_leaf_round_trip_witness :
  exists m' : gmap UserPath str,
    @GetUserPath sample_paths xdg_host Posix DumpDir (lit "/data")
      {[ UserDir := lit "/u/"; DumpDir := lit "/u/dump/" ]}
    = Some (lit "/data", m') /\
    value_of (@GetUserPath sample_paths xdg_host Posix DumpDir []) m'
    = Some (lit "/data").
Proof.
  destruct (@Override_leaf_round_trip sample_paths xdg_host Posix DumpDir
              (lit "/data") {[ UserDir := lit "/u/"; DumpDir := lit "/u/dump/" ]}
              ltac:(discriminate) ltac:(discriminate)
              ltac:(vm_compute; discriminate) ltac:(discriminate)
              ltac:(reflexivity))
    as (m' & Hcall & Hquery & _).
  exists m'. split; [exact Hcall | exact Hquery].
Defined.

(** An accepted override of the root on a set-up table returns the new
    path, stores it as the root entry and makes the user directory entry
    the new path followed by the separator; every other entry, the
    configuration and cache directories included, stays as it was. *)
Theorem Override_RootDir_effect `{!CommonPaths} `{!Host}
    (plat : Platform) (new_path : str) (m : gmap UserPath str) :
  paths_at m UserDir <> [] -> new_path <> [] ->
  fs_is_directory new_path = true ->
  exists m' : gmap UserPath str,
    GetUserPath plat RootDir new_path m = Some (new_path, m') /\
    paths_at m' RootDir = new_path /\
    paths_at m' UserDir = new_path ++ DIR_SEP /\
    forall k, k <> RootDir -> k <> UserDir -> paths_at m' k = paths_at m k.
Proof.
  intros Hinit Hne Hdir. rewrite GetUserPath_split. unfold mbind, Reg_bind.
  rewrite set_up_once_skipped by done.
  unfold apply_new_path. rewrite Hdir. destruct new_path as [|c t]; [done|].
  simpl. unfold paths_at. reg_unfold. simplify_map_eq.
  eexists. split; [reflexivity|]. simplify_map_eq.
  split; [done|]. split; [done|]. intros k HkR HkU. by simplify_map_eq.
Qed.

Lemma Override_RootDir_effect_witness :
  exists m' : gmap UserPath str,
    @GetUserPath sample_paths xdg_host Posix RootDir (lit "/data")
      {[ UserDir := lit "/u/"; ConfigDir := lit "/u/config/" ]}
    = Some (lit "/data", m') /\
    paths_at m' UserDir = lit "/data/" /\
    paths_at m' ConfigDir = lit "/u/config/".
Proof.
  destruct (@Override_RootDir_effect sample_paths xdg_host Posix (lit "/data")
              {[ UserDir := lit "/u/"; ConfigDir := lit "/u/config/" ]})
    as (m' & Hcall & _ & Huser & Hrest);
    [vm_compute; discriminate | discriminate | reflexivity |].
  exists m'. split; [exact Hcall|]. split; [exact Huser|].
  rewrite (Hrest ConfigDir); [reflexivity | discriminate | discriminate].
Defined.

(** GetNANDRegistrationDir on a set-up table is the NAND entry followed
    directly by "system/Contents/registered/" or
    "user/Contents/registered/".  After an accepted override of the NAND
    directory it is the new path followed directly by that text: no
    separator is put between them. *)
Theorem GetNANDRegistrationDir_spec `{!CommonPaths} `{!Host}
    (plat : Platform) (system : bool) (m : gmap UserPath str) :
  paths_at m UserDir <> [] ->
  let suffix := if system then lit "system/Contents/registered/"
                else lit "user/Contents/registered/" in
  value_of (GetNANDRegistrationDir plat system) m
  = Some (paths_at m NANDDir ++ suffix) /\
  forall new_path, new_path <> [] -> fs_is_directory new_path = true ->
    value_of (GetUserPath plat NANDDir new_path;;
              GetNANDRegistrationDir plat system) m
    = Some (new_path ++ suffix).
Proof.
  intros Hinit suffix.
  assert (Hq : forall m0, paths_at m0 UserDir <> [] ->
             value_of (GetNANDRegistrationDir plat system) m0
             = Some (paths_at m0 NANDDir ++ suffix)).
  { intros m0 Hm0. unfold value_of, GetNANDRegistrationDir, mbind, Reg_bind.
    destruct (GetUserPath_query plat NANDDir m0 Hm0) as (m1 & E & _).
    destruct system; rewrite E; reflexivity. }
  split; [by apply Hq|]. intros new_path Hne Hdir.
  unfold value_of, mbind at 1, Reg_bind at 1.
  rewrite (Override_leaf_accepted plat NANDDir new_path m) by done.
  fold (value_of (GetNANDRegistrationDir plat system) (<[NANDDir:=new_path]> m)).
  rewrite Hq.
  - unfold paths_at. by rewrite lookup_insert_eq.
  - unfold paths_at in *. by rewrite lookup_insert_ne.
Qed.

Lemma GetNANDRegistrationDir_spec_witness :
  value_of (@GetUserPath sample_paths xdg_host Posix NANDDir (lit "/data");;
            @GetNANDRegistrationDir sample_paths xdg_host Posix true)
    {[ UserDir := lit "/u/"; NANDDir := lit "/u/nand/" ]}
  = Some (lit "/datasystem/Contents/registered/").
Proof.
  assert (Hinit : paths_at ({[ UserDir := lit "/u/"; NANDDir := lit "/u/nand/" ]}
                             : gmap UserPath str) UserDir <> [])
    by (vm_compute; discriminate).
  apply (proj2 (@GetNANDRegistrationDir_spec sample_paths xdg_host Posix true
                  _ Hinit) (lit "/data")); [discriminate | reflexivity].
Defined.

(* ================================================================== *)
(** * Properties of the file-system operations *)
(* ================================================================== *)

Section FileOpsFacts.
Context {World : Type} {filesystem : Filesystem World}.

Lemma rfind_dot_found (s : str) :
  size s < npos -> ~ no_dot s -> rfind "."%char s npos <> npos.
Proof.
  intros Hsz Hd. destruct (last_dot_split s Hd) as (stem & ext & -> & Hext).
  rewrite rfind_last_occurrence by done.
  rewrite size_app in Hsz. pose proof (size_nonneg ("."%char :: ext)). lia.
Qed.

Lemma foreach_loop_real_entries {S : Type}
    (callback : str -> str -> S -> bool * Z * S) directory names found st :
  foreach_loop callback directory names found st
  = foreach_loop callback directory (real_entries names) found st.
Proof.
  revert found st. induction names as [|n rest IH]; intros found st; [done|].
  unfold real_entries. simpl.
  destruct (str_eqb n _ || str_eqb n _) eqn:E; simpl.
  - apply IH.
  - rewrite E. destruct (callback directory n st) as [[ok ret] st1].
    destruct ok; simpl; [apply IH | done].
Qed.

(** The loop against the calls of [callback_run] on the entries other
    than "." and "..": when all of them succeed the loop ends without an
    error, with their counts added up and in their final state; and the
    loop ends without an error only when all of them succeed. *)
Lemma foreach_loop_run {S : Type}
    (callback : str -> str -> S -> bool * Z * S) directory names found st :
  (Forall (fun r => r.1 = true)
     (callback_run callback directory (real_entries names) st).1 ->
   foreach_loop callback directory names found st
   = (false,
      fold_left (fun acc n => to_u64 (acc + n))
        (map snd (callback_run callback directory (real_entries names) st).1)
        found,
      (callback_run callback directory (real_entries names) st).2)) /\
  ((foreach_loop callback directory names found st).1.1 = false ->
   Forall (fun r => r.1 = true)
     (callback_run callback directory (real_entries names) st).1).
Proof.
  revert found st. induction names as [|n rest IH]; intros found st.
  - split; [done | by constructor].
  - unfold real_entries. cbn [List.filter foreach_loop].
    destruct (str_eqb n _ || str_eqb n _) eqn:E; cbn [negb].
    + apply IH.
    + fold (real_entries rest). cbn [callback_run].
      destruct (callback directory n st) as [[ok ret] st1].
      destruct (IH (to_u64 (found + ret)) st1) as [IH1 IH2].
      destruct (callback_run callback directory (real_entries rest) st1)
        as [results st'] eqn:Erun.
      cbn [fst snd map fold_left] in *. split.
      * intros Hall. apply Forall_cons in Hall as [Hok Hall].
        simpl in Hok. subst ok. cbn [negb]. by apply IH1.
      * destruct ok; cbn [negb]; [|done].
        intros Hloop. apply Forall_cons. split; [done | by apply IH2].
Qed.

Lemma foreach_loop_app {S : Type}
    (callback : str -> str -> S -> bool * Z * S)
    directory pre post found st found1 st1 :
  foreach_loop callback directory pre found st = (false, found1, st1) ->
  foreach_loop callback directory (pre ++ post) found st
  = foreach_loop callback directory post found1 st1.
Proof.
  revert found st. induction pre as [|n rest IH]; intros found st; simpl.
  - by intros [= <- <-].
  - destruct (str_eqb n _ || str_eqb n _); [apply IH|].
    destruct (callback directory n st) as [[ok ret] st2].
    destruct ok; simpl; [apply IH | done].
Qed.

End FileOpsFacts.

(** CreateFullPath creates the directories of the sanitized path itself
    when that path contains no dot, and also when it contains a dot but
    no '/': a bare file name such as "save.dat" becomes a directory.
    Only when the sanitized path contains both a dot and a '/' are the
    directories those of the text before its last '/'. *)
Theorem CreateFullPath_target {World : Type} {filesystem : Filesystem World}
    (plat : Platform) (path : str) (w : World) :
  let new_path := SanitizePath plat path ForwardSlash in
  size new_path < npos ->
  (no_dot new_path ->
   CreateFullPath plat path w = Some (CreateDirs new_path w)) /\
  (~ no_dot new_path ->
   Forall (fun c => Ascii.eqb c "/"%char = false) new_path ->
   CreateFullPath plat path w = Some (CreateDirs new_path w)) /\
  (~ no_dot new_path ->
   forall a b : str,
     new_path = a ++ "/"%char :: b ->
     Forall (fun c => Ascii.eqb c "/"%char = false) b ->
     CreateFullPath plat path w = Some (CreateDirs a w)).
Proof.
  intros new_path Hsz. unfold CreateFullPath. fold new_path.
  split; [|split].
  - intros Hnd. unfold rfind. rewrite rfind_from_absent by done.
    by rewrite Z.eqb_refl.
  - intros Hd Hns. pose proof (rfind_dot_found new_path Hsz Hd) as Hne.
    destruct (Z.eqb_spec (rfind "."%char new_path npos) npos); [done|].
    unfold rfind at 1. rewrite rfind_from_absent by done.
    rewrite substr_whole by lia. reflexivity.
  - intros Hd a b E Hb. pose proof (rfind_dot_found new_path Hsz Hd) as Hne.
    destruct (Z.eqb_spec (rfind "."%char new_path npos) npos); [done|].
    rewrite E in Hsz |- *.
    rewrite (rfind_last_occurrence "/"%char) by done.
    by rewrite substr_prefix.
Qed.

Lemma CreateFullPath_target_witness :
  CreateFullPath (filesystem := listing_fs) Posix (lit "save.dat") []
  = Some (true, [(lit "save.dat", [lit "."; lit ".."])]) /\
  CreateFullPath (filesystem := listing_fs) Posix (lit "a\b/save.dat") []
  = Some (CreateDirs (filesystem := listing_fs) (lit "a/b") []).
Proof.
  split.
  - apply (proj1 (proj2
      (CreateFullPath_target (filesystem := listing_fs) Posix (lit "save.dat") []
         ltac:(small_size)))).
    + intros H. inversion H as [|? ? _ H1]; subst.
      inversion H1 as [|? ? _ H2]; subst. inversion H2 as [|? ? _ H3]; subst.
      inversion H3 as [|? ? _ H4]; subst. inversion H4 as [|? ? E _]; subst.
      discriminate E.
    + repeat constructor.
  - apply (proj2 (proj2
      (CreateFullPath_target (filesystem := listing_fs) Posix (lit "a\b/save.dat") []
         ltac:(small_size)))
      ltac:(intros H; inversion H as [|? ? _ H1]; subst;
            inversion H1 as [|? ? _ H2]; subst; inversion H2 as [|? ? _ H3]; subst;
            inversion H3 as [|? ? _ H4]; subst; inversion H4 as [|? ? _ H5]; subst;
            inversion H5 as [|? ? _ H6]; subst; inversion H6 as [|? ? _ H7]; subst;
            inversion H7 as [|? ? _ H8]; subst; inversion H8 as [|? ? E _]; subst;
            discriminate E)
      (lit "a/b") (lit "save.dat")); [reflexivity | repeat constructor].
Defined.

(** The entries "." and ".." of a directory never reach the callback and
    never count: two listings with the same other entries give the same
    result, the same count and the same callback state. *)
Theorem ForeachDirectoryEntry_ignores_dot_entries
    {World : Type} {filesystem : Filesystem World} {S : Type}
    (num_entries_out : option Z) (directory : str)
    (callback : str -> str -> S -> bool * Z * S)
    (w w' : World) (names names' : list str) (st : S) :
  read_directory directory w = Some names ->
  read_directory directory w' = Some names' ->
  real_entries names = real_entries names' ->
  ForeachDirectoryEntry num_entries_out directory callback w st
  = ForeachDirectoryEntry num_entries_out directory callback w' st.
Proof.
  intros E E' Hreal. unfold ForeachDirectoryEntry. rewrite E, E'.
  rewrite (foreach_loop_real_entries callback directory names).
  rewrite (foreach_loop_real_entries callback directory names').
  by rewrite Hreal.
Qed.

Lemma ForeachDirectoryEntry_ignores_dot_entries_witness :
  ForeachDirectoryEntry (filesystem := listing_fs) (Some 0) (lit "/d")
    (fun _ n (visited : list str) => (true, 1, visited ++ [n]))
    [(lit "/d", [lit "."; lit "a"; lit ".."; lit "b"])] []
  = ForeachDirectoryEntry (filesystem := listing_fs) (Some 0) (lit "/d")
    (fun _ n (visited : list str) => (true, 1, visited ++ [n]))
    [(lit "/d", [lit "a"; lit "b"])] [].
Proof.
  apply (ForeachDirectoryEntry_ignores_dot_entries (filesystem := listing_fs)
           (Some 0) (lit "/d") _ _ _
           [lit "."; lit "a"; lit ".."; lit "b"] [lit "a"; lit "b"]);
    reflexivity.
Defined.

(** X24: take the calls that hand the entries other than "." and "..",
    in directory order, to the callback, each call starting in the state
    the one before it left.  When every one of these calls succeeds,
    ForeachDirectoryEntry returns true, leaves the state of the last call
    and stores in a non-null [num_entries_out] the sum of the counts the
    calls reported, taken modulo 2^64; with a null pointer it returns true
    and stores nothing.  What the callback would do on "." or "..", or in
    states the loop never reaches, does not matter. *)
Theorem ForeachDirectoryEntry_counts
    {World : Type} {filesystem : Filesystem World} {S : Type}
    (old : Z) (directory : str)
    (callback : str -> str -> S -> bool * Z * S)
    (w : World) (names : list str) (st : S) :
  read_directory directory w = Some names ->
  Forall (fun r => r.1 = true)
    (callback_run callback directory (real_entries names) st).1 ->
  ForeachDirectoryEntry (Some old) directory callback w st
  = (true,
     Some (sum_u64
             (map snd (callback_run callback directory (real_entries names) st).1)),
     (callback_run callback directory (real_entries names) st).2) /\
  ForeachDirectoryEntry None directory callback w st
  = (true, None, (callback_run callback directory (real_entries names) st).2).
Proof.
  intros E Hall. unfold ForeachDirectoryEntry. rewrite E.
  rewrite (proj1 (foreach_loop_run callback directory names 0 st) Hall).
  done.
Qed.

Lemma ForeachDirectoryEntry_counts_witness :
  ForeachDirectoryEntry (filesystem := listing_fs) (Some 7) (lit "/d")
    (fun _ n (visited : list str) =>
       (negb (str_eqb n (lit ".")), Std.size n + Z.of_nat (length visited),
        visited ++ [n]))
    [(lit "/d", [lit "."; lit "ab"; lit ".."; lit "cde"])] []
  = (true, Some 6, [lit "ab"; lit "cde"]).
Proof.
  apply (proj1 (ForeachDirectoryEntry_counts (filesystem := listing_fs)
                  7 (lit "/d")
                  (fun _ n (visited : list str) =>
                     (negb (str_eqb n (lit ".")),
                      Std.size n + Z.of_nat (length visited), visited ++ [n]))
                  [(lit "/d", [lit "."; lit "ab"; lit ".."; lit "cde"])]
                  [lit "."; lit "ab"; lit ".."; lit "cde"] []
                  eq_refl
                  ltac:(repeat constructor))).
Defined.

(** ForeachDirectoryEntry returns true only when the directory can be
    read and every one of those calls succeeds. *)
Lemma ForeachDirectoryEntry_true_only_if
    {World : Type} {filesystem : Filesystem World} {S : Type}
    (num_entries_out : option Z) (directory : str)
    (callback : str -> str -> S -> bool * Z * S) (w : World) (st : S) :
  (ForeachDirectoryEntry num_entries_out directory callback w st).1.1 = true ->
  exists names,
    read_directory directory w = Some names /\
    Forall (fun r => r.1 = true)
      (callback_run callback directory (real_entries names) st).1.
Proof.
  unfold ForeachDirectoryEntry.
  destruct (read_directory directory w) as [names|]; [|done].
  intros Hret. exists names. split; [done|].
  apply (proj2 (foreach_loop_run callback directory names 0 st)).
  destruct (foreach_loop callback directory names 0 st) as [[err found] st1].
  by destruct err.
Qed.

(** ForeachDirectoryEntry fails without touching [num_entries_out] when
    the directory cannot be opened, and when the callback fails on an
    entry; in the latter case the entries after the failing one are not
    visited. *)
Theorem ForeachDirectoryEntry_failure
    {World : Type} {filesystem : Filesystem World} {S : Type}
    (num_entries_out : option Z) (directory : str)
    (callback : str -> str -> S -> bool * Z * S) (w : World) (st : S) :
  (read_directory directory w = None ->
   ForeachDirectoryEntry num_entries_out directory callback w st
   = (false, num_entries_out, st)) /\
  (forall (pre post : list str) (n : str) found (st1 : S),
      read_directory directory w = Some (pre ++ n :: post) ->
      foreach_loop callback directory pre 0 st = (false, found, st1) ->
      real_entries [n] = [n] ->
      (callback directory n st1).1.1 = false ->
      ForeachDirectoryEntry num_entries_out directory callback w st
      = (false, num_entries_out, (callback directory n st1).2)).
Proof.
  unfold ForeachDirectoryEntry. split.
  - by intros ->.
  - intros pre post n found st1 -> Hpre Hreal Hfail.
    rewrite (foreach_loop_app callback directory pre (n :: post) 0 st found st1 Hpre).
    simpl. unfold real_entries in Hreal. simpl in Hreal.
    destruct (str_eqb n _ || str_eqb n _); [done|].
    destruct (callback directory n st1) as [[ok ret] st2]. simpl in *.
    by rewrite Hfail.
Qed.

Lemma ForeachDirectoryEntry_failure_witness :
  ForeachDirectoryEntry (filesystem := listing_fs) (Some 7) (lit "/d")
    (fun _ n (visited : list str) =>
       (negb (str_eqb n (lit "bad")), 1, visited ++ [n]))
    [(lit "/d", [lit "ok"; lit "bad"; lit "later"])] []
  = (false, Some 7, [lit "ok"; lit "bad"]).
Proof.
  apply (proj2 (ForeachDirectoryEntry_failure (filesystem := listing_fs)
                  (Some 7) (lit "/d")
                  (fun _ n (visited : list str) =>
                     (negb (str_eqb n (lit "bad")), 1, visited ++ [n]))
                  [(lit "/d", [lit "ok"; lit "bad"; lit "later"])] [])
               [lit "ok"] [lit "later"] (lit "bad") 1 [lit "ok"]);
    reflexivity.
Defined.

(** ** When GetUserPath aborts *)

Section RegistryAbort.
Context `{!CommonPaths} `{!Host}.

Lemma never_aborts_bind {A B} (c : Reg A) (k : A -> Reg B) :
  never_aborts c -> (forall x, never_aborts (k x)) -> never_aborts (c ≫= k).
Proof.
  intros Hc Hk m. unfold mbind, Reg_bind.
  destruct (Hc m) as [[x m1] ->]. apply Hk.
Qed.

Lemma never_aborts_ret {A} (x : A) : never_aborts (mret x).
Proof. intros m. by eexists. Qed.

Lemma never_aborts_index k : never_aborts (index k).
Proof. intros m. unfold index. destruct (m !! k); by eexists. Qed.

Lemma never_aborts_assign k v : never_aborts (assign k v).
Proof. intros m. by eexists. Qed.

Lemma never_aborts_emplace k v : never_aborts (emplace k v).
Proof. intros m. unfold emplace. destruct (m !! k); by eexists. Qed.

Lemma never_aborts_emplace_common : never_aborts emplace_common.
Proof.
  unfold emplace_common, user_path.
  repeat (apply never_aborts_bind;
          [first [apply never_aborts_index | apply never_aborts_emplace]
          | intros ?]);
    first [apply never_aborts_index | apply never_aborts_emplace].
Qed.

Lemma never_aborts_cascade path : never_aborts (cascade path).
Proof.
  destruct path; try apply never_aborts_ret; unfold cascade, user_path;
    repeat (apply never_aborts_bind;
            [first [apply never_aborts_index | apply never_aborts_assign]
            | intros ?]);
    first [apply never_aborts_index | apply never_aborts_assign].
Qed.

Lemma never_aborts_apply_new_path path new_path :
  never_aborts (apply_new_path path new_path).
Proof.
  unfold apply_new_path.
  destruct (negb (empty new_path)); [|apply never_aborts_index].
  destruct (negb (fs_is_directory new_path)); [apply never_aborts_index|].
  apply never_aborts_bind; [apply never_aborts_assign | intros _].
  apply never_aborts_bind; [apply never_aborts_cascade | intros _].
  apply never_aborts_index.
Qed.

Lemma set_up_paths_aborts plat m :
  set_up_paths plat m = None ->
  plat = Posix /\ fs_exists (ROOT_DIR ++ DIR_SEP ++ USERDATA_DIR) = false /\
  (GetUserDirectory (lit "XDG_DATA_HOME") = None \/
   GetUserDirectory (lit "XDG_CONFIG_HOME") = None \/
   GetUserDirectory (lit "XDG_CACHE_HOME") = None).
Proof.
  intros Hnone.
  assert (Hcontra : never_aborts (set_up_paths plat) -> False).
  { intros Ht. destruct (Ht m) as [x Hx]. congruence. }
  destruct plat.
  - destruct Hcontra. unfold set_up_paths, user_path.
    apply never_aborts_bind; [|intros _; apply never_aborts_emplace_common].
    apply never_aborts_bind; [apply never_aborts_assign | intros _].
    apply never_aborts_bind; [apply never_aborts_index | intros u].
    apply never_aborts_bind.
    { destruct (negb (fs_is_directory u));
        [apply never_aborts_assign | apply never_aborts_ret]. }
    intros _.
    repeat (apply never_aborts_bind;
            [first [apply never_aborts_index | apply never_aborts_emplace]
            | intros ?]);
      first [apply never_aborts_index | apply never_aborts_emplace].
  - split; [done|]. unfold set_up_paths, user_path in Hcontra.
    destruct (fs_exists (ROOT_DIR ++ DIR_SEP ++ USERDATA_DIR)).
    + destruct Hcontra.
      apply never_aborts_bind; [|intros _; apply never_aborts_emplace_common].
      repeat (apply never_aborts_bind;
              [first [apply never_aborts_index | apply never_aborts_assign
                     | apply never_aborts_emplace]
              | intros ?]);
        first [apply never_aborts_index | apply never_aborts_emplace].
    + split; [done|].
      destruct (GetUserDirectory (lit "XDG_DATA_HOME")) as [d|]; [|by left].
      destruct (GetUserDirectory (lit "XDG_CONFIG_HOME")) as [c|];
        [|by right; left].
      destruct (GetUserDirectory (lit "XDG_CACHE_HOME")) as [k|];
        [|by right; right].
      destruct Hcontra.
      apply never_aborts_bind; [|intros _; apply never_aborts_emplace_common].
      do 3 (apply never_aborts_bind; [intros m0; by eexists | intros ?]).
      apply never_aborts_bind; [apply never_aborts_assign | intros _].
      apply never_aborts_bind; apply never_aborts_emplace || intros _.
      apply never_aborts_emplace.
Qed.

End RegistryAbort.

(** GetUserPath aborts in one situation only: on the POSIX build, when
    the table has not been set up, ROOT_DIR/USERDATA_DIR does not exist
    and GetUserDirectory aborts for one of the three XDG variables.  It
    never aborts on Windows, nor once the table is set up. *)
Theorem GetUserPath_aborts_only_in_set_up `{!CommonPaths} `{!Host}
    (plat : Platform) (path : UserPath) (new_path : str)
    (m : gmap UserPath str) :
  GetUserPath plat path new_path m = None ->
  plat = Posix /\ paths_at m UserDir = [] /\
  fs_exists (ROOT_DIR ++ DIR_SEP ++ USERDATA_DIR) = false /\
  (GetUserDirectory (lit "XDG_DATA_HOME") = None \/
   GetUserDirectory (lit "XDG_CONFIG_HOME") = None \/
   GetUserDirectory (lit "XDG_CACHE_HOME") = None).
Proof.
  rewrite GetUserPath_split. unfold mbind, Reg_bind.
  destruct (set_up_once plat m) as [[[] m1]|] eqn:E.
  { intros Hnone. destruct (never_aborts_apply_new_path path new_path m1) as [x Hx].
    congruence. }
  intros _. unfold set_up_once, user_path, mbind, Reg_bind in E.
  destruct (index_reads UserDir m) as (m0 & E0 & _). rewrite E0 in E.
  destruct (paths_at m UserDir) as [|c u]; simpl in E; [|done].
  destruct (set_up_paths_aborts plat m0 E) as (? & ? & ?). done.
Qed.

Lemma GetUserPath_aborts_only_in_set_up_witness :
  @GetUserPath sample_paths
    {| fs_exists := fun _ => false; fs_is_directory := fun _ => false;
       getenv := fun v => if str_eqb v (lit "XDG_CONFIG_HOME")
                          then Some (lit "config") else Some (lit "/x");
       getpwuid_dir := None; GetExeDirectory := [];
       AppDataRoamingDirectory := [] |}
    Posix LogDir [] ∅ = None /\
  paths_at (∅ : gmap UserPath str) UserDir = [].
Proof.
  split; [reflexivity|].
  apply (@GetUserPath_aborts_only_in_set_up sample_paths
    {| fs_exists := fun _ => false; fs_is_directory := fun _ => false;
       getenv := fun v => if str_eqb v (lit "XDG_CONFIG_HOME")
                          then Some (lit "config") else Some (lit "/x");
       getpwuid_dir := None; GetExeDirectory := [];
       AppDataRoamingDirectory := [] |}
    Posix LogDir [] ∅).
  reflexivity.
Defined.

(* ================================================================== *)
(** * The configuration directory under the user directory *)
(* ================================================================== *)

Section ConfigUnderUser.
Context `{!CommonPaths} `{!Host}.
Implicit Types (m : gmap UserPath str) (path k : UserPath) (new_path : str).








End ConfigUnderUser.



(** The two overrides that the amended C1 leaves out do separate the two
    paths: on a host with a ./user directory, after an accepted override
    of the root the user directory is "/data/" while the configuration
    directory is still "./user/config/", and after an accepted override
    of the configuration directory it is "/data" while the user directory
    is still "./user/". *)
Lemma ConfigDir_after_other_overrides :
  value_of (@GetUserPath sample_paths portable_host Posix RootDir (lit "/data");;
            @GetUserPath sample_paths portable_host Posix UserDir []) ∅
  = Some (lit "/data/") /\
  value_of (@GetUserPath sample_paths portable_host Posix RootDir (lit "/data");;
            @GetUserPath sample_paths portable_host Posix ConfigDir []) ∅
  = Some (lit "./user/config/") /\
  value_of (@GetUserPath sample_paths portable_host Posix ConfigDir (lit "/data");;
            @GetUserPath sample_paths portable_host Posix ConfigDir []) ∅
  = Some (lit "/data") /\
  value_of (@GetUserPath sample_paths portable_host Posix ConfigDir (lit "/data");;
            @GetUserPath sample_paths portable_host Posix UserDir []) ∅
  = Some (lit "./user/").
Proof. repeat split; by vm_compute. Qed.
